(** * fofa-go: the reply parser of [fofa.go]

    A shallow embedding of [QueryAsJSON] and [QueryAsArray] from
    [src/fofa/fofa.go], and the properties of the field mapping, the
    row/column splitting and the error paths.

    Conventions.
    - A Go [[]byte] is a [list byte]; a Go [string] is a [string];
      [string(b)] is [string_of_list_byte], [[]byte(s)] is
      [list_byte_of_string].
    - A function that can panic returns in [Run]; the panic carries the
      kind of run-time error.
    - The packages the file imports ([net/http], [encoding/base64],
      [strconv], [github.com/buger/jsonparser]) are not part of the
      repository: their functions are fields of the class [GoLibs] and the
      development is parametric in them. *)

From Stdlib Require Import ZArith Lia List Strings.String Strings.Byte.
From stdpp Require Import base option list gmap strings pretty.

Local Open Scope Z_scope.
Local Open Scope string_scope.
Local Open Scope list_scope.

(** ** Bytes and strings *)

Abbreviation bytes := (list byte).

#[global] Instance byte_eq_decision : EqDecision byte := Byte.byte_eq_dec.

(** [[]byte("...")] for the literals of the source. *)
Definition B (s : string) : bytes := list_byte_of_string s.

(** [string(b)]. *)
Definition Str (b : bytes) : string := string_of_list_byte b.

(** The bytes the parser looks at. *)
Definition comma : byte := x2c.
Definition dquote : byte := x22.
Definition lbrack : byte := x5b.
Definition rbrack : byte := x5d.
Definition space : byte := x20.

(** ** Panics *)

Inductive panic : Type :=
  | NilDereference        (* method call on a nil interface value *)
  | IndexOutOfRange       (* s[i] with i >= len(s) *)
  | SliceBoundsOutOfRange (* s[lo:hi] with lo > hi or hi < 0 *).

Inductive Run (A : Type) : Type :=
  | Return (a : A)
  | Panic (p : panic).
Arguments Return {A} a.
Arguments Panic {A} p.

#[global] Instance Run_ret : MRet Run := fun A a => Return a.
#[global] Instance Run_bind : MBind Run := fun A B k m =>
  match m with
  | Return a => k a
  | Panic p => Panic p
  end.

(** The loop [for i, v := range l { ... }] whose body can panic: the first
    panic aborts the loop. *)
Fixpoint forR {A B : Type} (f : A -> Run B) (l : list A) : Run (list B) :=
  match l with
  | [] => Return []
  | a :: l' => b ← f a; bs ← forR f l'; Return (b :: bs)
  end.

(** ** Slices *)

(** [s[lo:hi]]. The source only slices with [hi <= len(s)], so the bound
    against the capacity never fails; the run-time check that is left is
    [0 <= lo <= hi]. [len(s)-2] is computed on [int] and may be negative. *)
Definition slice (s : bytes) (lo hi : Z) : Run bytes :=
  if bool_decide (0 <= lo /\ lo <= hi /\ hi <= Z.of_nat (length s))
  then Return (take (Z.to_nat (hi - lo)) (drop (Z.to_nat lo) s))
  else Panic SliceBoundsOutOfRange.

(** [l[a]] on a slice of slices. *)
Definition index {A : Type} (l : list A) (a : nat) : Run A :=
  match l !! a with
  | Some x => Return x
  | None => Panic IndexOutOfRange
  end.

Definition len (s : bytes) : Z := Z.of_nat (length s).

(** ** [bytes.Split] and [strings.Split] with a non-empty separator

    [has_prefix sep s] is [bytes.HasPrefix(s, sep)]. *)
Fixpoint has_prefix (sep s : bytes) : bool :=
  match sep, s with
  | [], _ => true
  | _ :: _, [] => false
  | x :: sep', y :: s' => bool_decide (x = y) && has_prefix sep' s'
  end.

(** Left-to-right scan: [cur] is the current piece, reversed; when the
    separator starts at the current byte the piece is closed and the other
    [length sep - 1] bytes of the separator are skipped. This is the result
    of the standard library's loop "find the next occurrence, cut, go on
    after it" for a separator that is not empty (the only use in the
    source). *)
Fixpoint split_from (sep : bytes) (skip : nat) (cur : bytes) (s : bytes)
  : list bytes :=
  match s with
  | [] => [rev cur]
  | c :: s' =>
      match skip with
      | S k => split_from sep k cur s'
      | O =>
          if has_prefix sep s
          then rev cur :: split_from sep (length sep - 1) [] s'
          else split_from sep 0 (c :: cur) s'
      end
  end.

Definition Split (s sep : bytes) : list bytes := split_from sep 0 [] s.

Definition strings_Split (s sep : string) : list string :=
  Str <$> Split (B s) (B sep).

(** [bytes.Index(s, sep)]: where [sep] first occurs in [s]. *)
Fixpoint Index (s sep : bytes) : option nat :=
  if has_prefix sep s then Some 0%nat
  else match s with
       | [] => None
       | _ :: s' => S <$> Index s' sep
       end.

(** [bytes.Join]. *)
Fixpoint Join (l : list bytes) (sep : bytes) : bytes :=
  match l with
  | [] => []
  | [x] => x
  | x :: l' => x ++ sep ++ Join l' sep
  end.

(** [strings.Trim(s, " ")]: leading and trailing spaces removed. *)
Fixpoint trim_left (s : bytes) : bytes :=
  match s with
  | c :: s' => if bool_decide (c = space) then trim_left s' else s
  | [] => []
  end.

Definition strings_Trim_space (s : string) : string :=
  Str (rev (trim_left (rev (trim_left (B s))))).

(** ** Errors and the imported packages *)

(** Go error values. [errors.New] allocates a fresh value at every call, so
    an error made from a reply's message is never one of the two package
    variables, whatever its text. *)
Inductive error : Type :=
  | errors_New (msg : string)   (* [errors.New(errmsg)], lines 118 and 164 *)
  | errFofaReplyWrongFormat     (* line 61 *)
  | errFofaReplyNoData          (* line 62 *)
  | lib_error (msg : string)    (* an error made by net/http or jsonparser *).

(** [err.Error()]. *)
Definition Error (e : error) : string :=
  match e with
  | errors_New msg => msg
  | errFofaReplyWrongFormat => "Fofa Reply With Wrong Format."
  | errFofaReplyNoData => "No Data In Fofa Reply."
  | lib_error msg => msg
  end.

(** [jsonparser.ValueType]. *)
Inductive ValueType : Type :=
  | NotExist | String_ | Number | Object | Array | Boolean | Null | Unknown.

#[global] Instance ValueType_eq_dec : EqDecision ValueType.
Proof. solve_decision. Defined.

(** The functions of the imported packages, as the source calls them. The
    error of a library call is [None] for [nil] and otherwise the message
    of the error value the library made; the program holds it as
    [lib_error]. *)
Class GoLibs : Type := {
  (* [base64.StdEncoding.EncodeToString] *)
  base64_EncodeToString : bytes -> string;
  (* [strconv.Itoa] *)
  strconv_Itoa : Z -> string;
  (* [jsonparser.GetString(data, key)] *)
  jsonparser_GetString : bytes -> string -> string * option string;
  (* [jsonparser.Get(data, key)], without the offset the source drops *)
  jsonparser_Get : bytes -> string -> bytes * ValueType * option string;
  (* [jsonparser.GetInt(data, key)] *)
  jsonparser_GetInt : bytes -> string -> Z * option string
}.

(** ** The client (lines 35-39) *)

(** [Client_Get url] is [ff.Get(url)] followed by [ioutil.ReadAll] of the
    body: the message of a transport error, or the bytes read (the source
    drops the error of [ReadAll]). *)
Record Fofa : Type := {
  email : bytes;
  key : bytes;
  Client_Get : string -> string + bytes
}.

(** [result] (lines 43-51). *)
Record result : Type := {
  Domain : string;
  Host : string;
  IP : string;
  Port : string;
  Title : string;
  Country : string;
  City : string
}.

Abbreviation Results := (list result).

Definition defaultAPIUrl : string := "https://fofa.so/api/v1/search/all?".

(** The variadic [args ...[]byte]: [None] is a [nil] slice, which the
    source tells apart from an empty one. *)
Abbreviation Args := (list (option bytes)).

(** [[]byte] value of an argument: a nil slice has no bytes. *)
Definition bytes_of (a : option bytes) : bytes := default [] a.

Section Program.
Context `{libs : GoLibs}.

(** ** [QueryAsJSON] (lines 85-123) *)

(** The [switch] of lines 91-97: the query and the fields of the request. *)
Definition query_and_fields (args : Args) : bytes * bytes :=
  let fields := B "domain,host,ip,port,title,country,city" in
  match args with
  | [a0] => (bytes_of a0, fields)
  | [a0; None] => (bytes_of a0, fields)
  | [a0; Some f] => (bytes_of a0, f)
  | _ => ([], fields)
  end.

(** [int(page)] for a 64-bit [uint]. *)
Definition int_of_uint (page : N) : Z :=
  let p := Z.of_N page mod 2 ^ 64 in
  if (p <? 2 ^ 63)%Z then p else p - 2 ^ 64.

(** Lines 99-106: the request URL. *)
Definition request_url (ff : Fofa) (page : N) (args : Args) : string :=
  let '(query, fields) := query_and_fields args in
  let q := B (base64_EncodeToString query) in
  Str (Join [B defaultAPIUrl;
             B "email="; email ff;
             B "&key="; key ff;
             B "&qbase64="; q;
             B "&fields="; fields;
             B "&page="; B (strconv_Itoa (int_of_uint page))] (B "")).

(** The result is the pair the function returns; a [nil] byte slice is
    the empty list. *)
Definition QueryAsJSON (ff : Fofa) (page : N) (args : Args)
  : bytes * option error :=
  match Client_Get ff (request_url ff page args) with
  | inl err => ([], Some (lib_error err))
  | inr buf =>
      let '(errmsg, err) := jsonparser_GetString buf "errmsg" in
      match err with
      | None => (buf, Some (errors_New errmsg))
      | Some _ => (buf, None)
      end
  end.

(** ** [QueryAsArray] (lines 129-218) *)

(** Lines 145-147: [for i, field := range fields], from index [i] on. *)
Fixpoint map_fields_from (i : nat) (fields : list string)
  (mapFields : gmap string nat) : gmap string nat :=
  match fields with
  | [] => mapFields
  | field :: rest =>
      map_fields_from (S i) rest (<[strings_Trim_space field := i]> mapFields)
  end.

(** Lines 149-155. *)
Definition default_mapFields : gmap string nat :=
  <["city" := 6%nat]> (<["country" := 5%nat]> (<["title" := 4%nat]>
  (<["port" := 3%nat]> (<["ip" := 2%nat]> (<["host" := 1%nat]>
  (<["domain" := 0%nat]> ∅)))))).

(** Lines 143-157: the field-to-index mapping. *)
Definition make_mapFields (args : Args) : gmap string nat :=
  match args with
  | _ :: Some fields :: _ =>
      map_fields_from 0 (strings_Split (Str fields) ",") ∅
  | _ => default_mapFields
  end.

(** Line 187: [bytes.Split(results[2:len(results)-2], []byte("],["))]. *)
Definition multi_field_rows (results : bytes) : Run (list bytes) :=
  inner ← slice results 2 (len results - 2);
  Return (Split inner (B "],[")).

(** Line 189: [bytes.Split(results[1:len(results)-1], []byte{','})]. *)
Definition single_field_rows (results : bytes) : Run (list bytes) :=
  inner ← slice results 1 (len results - 1);
  Return (Split inner [comma]).

(** Lines 186-190. *)
Definition split_rows (mapFields : gmap string nat) (results : bytes)
  : Run (list bytes) :=
  if bool_decide (1 < size mapFields)%nat
  then multi_field_rows results
  else single_field_rows results.

(** [string(col[1 : len(col)-1])]. *)
Definition strip (col : bytes) : Run string :=
  v ← slice col 1 (len col - 1);
  Return (Str v).

(** One of the seven [if a, ok := mapFields[name]; ok { ... }] of lines
    195-215: the value the attribute has afterwards; [""] is the zero value
    the record was made with. *)
Definition attribute (mapFields : gmap string nat) (tmp : list bytes)
  (name : string) : Run string :=
  match mapFields !! name with
  | Some a => col ← index tmp a; strip col
  | None => Return ""
  end.

(** The body of the loop, lines 193-215. *)
Definition parse_row (mapFields : gmap string nat) (v : bytes) : Run result :=
  let tmp := Split v [comma] in
  domain ← attribute mapFields tmp "domain";
  host ← attribute mapFields tmp "host";
  ip ← attribute mapFields tmp "ip";
  port ← attribute mapFields tmp "port";
  title ← attribute mapFields tmp "title";
  country ← attribute mapFields tmp "country";
  city ← attribute mapFields tmp "city";
  Return {| Domain := domain; Host := host; IP := ip; Port := port;
            Title := title; Country := country; City := city |}.

(** Lines 186-217: the rows are split and each one is parsed. *)
Definition split_and_parse (mapFields : gmap string nat) (results : bytes)
  : Run (Results * option error) :=
  resultArray ← split_rows mapFields results;
  queryArray ← forR (parse_row mapFields) resultArray;
  Return (queryArray, None).

(** Lines 159-217, on the bytes [QueryAsJSON] returned. The calls to the
    logger only matter through their argument [err.Error()], which panics
    when [err] is [nil] (line 171). A [nil] result slice is the empty
    list. *)
Definition parse_reply (mapFields : gmap string nat) (data : bytes)
  : Run (Results * option error) :=
  let '(errmsg, err) := jsonparser_GetString data "errmsg" in
  match err with
  | None => Return ([], Some (errors_New errmsg))
  | Some _ =>
      let '(results, dataType, err) := jsonparser_Get data "results" in
      if bool_decide (dataType ≠ Array) then
        match err with
        | None => Panic NilDereference
        | Some e => Return ([], Some (lib_error e))
        end
      else
        match err with
        | Some e => Return ([], Some (lib_error e))
        | None =>
            let '(size_, err) := jsonparser_GetInt data "size" in
            match err with
            | Some _ => Return ([], Some errFofaReplyWrongFormat)
            | None =>
                if (size_ <? 1)%Z then Return ([], Some errFofaReplyNoData)
                else split_and_parse mapFields results
            end
        end
  end.

Definition QueryAsArray (ff : Fofa) (page : N) (args : Args)
  : Run (Results * option error) :=
  let '(data, err) := QueryAsJSON ff page args in
  match err with
  | Some e => Return ([], Some e)
  | None => parse_reply (make_mapFields args) data
  end.

End Program.

(** ** Replies as the remote service writes them *)

(** A JSON string whose content is [c]. *)
Definition quoted (c : bytes) : bytes := dquote :: c ++ [dquote].

(** One row of quoted columns, without its brackets. *)
Definition render_row (cols : list bytes) : bytes :=
  Join (quoted <$> cols) [comma].

(** The raw text of a [results] array of rows of quoted columns (the shape
    of a reply to a query for several fields). *)
Definition render_results (rows : list (list bytes)) : bytes :=
  B "[[" ++ Join (render_row <$> rows) (B "],[") ++ B "]]".

(** The raw text of a flat [results] array of quoted values (the shape of
    a reply to a query for one field). *)
Definition render_flat (vals : list bytes) : bytes :=
  B "[" ++ Join (quoted <$> vals) [comma] ++ B "]".


Definition comma_free (c : bytes) : Prop := comma ∉ c.

#[global] Instance comma_free_dec (c : bytes) : Decision (comma_free c).
Proof. unfold comma_free. apply _. Defined.

(** The attribute of a record that a recognized field name stands for. *)
Definition get_attribute (name : string) (r : result) : string :=
  if bool_decide (name = "domain") then Domain r
  else if bool_decide (name = "host") then Host r
  else if bool_decide (name = "ip") then IP r
  else if bool_decide (name = "port") then Port r
  else if bool_decide (name = "title") then Title r
  else if bool_decide (name = "country") then Country r
  else if bool_decide (name = "city") then City r
  else "".

Definition recognized : list string :=
  ["domain"; "host"; "ip"; "port"; "title"; "country"; "city"].

(** The reply [data] passes the checks of lines 136-185 and reaches the
    splitting step with the raw array [results]: the transport answered,
    the lookup of [errmsg] failed, [results] is an array read without
    error, and [size] is an integer not below 1. *)
Definition reaches_split `{libs : GoLibs} (ff : Fofa) (page : N) (args : Args)
    (data results : bytes) : Prop :=
  Client_Get ff (request_url ff page args) = inr data ∧
  (jsonparser_GetString data "errmsg").2 ≠ None ∧
  jsonparser_Get data "results" = (results, Array, None) ∧
  ∃ n : Z, jsonparser_GetInt data "size" = (n, None) ∧ 1 <= n.

(** The names of a custom field list, in order: split on the comma, each
    trimmed. *)
Definition field_names (fields : bytes) : list string :=
  strings_Trim_space <$> strings_Split (Str fields) ",".

(** The column a mapped field points at is in the row and has the two
    bytes the slice [col[1:len(col)-1]] needs. *)
Definition column_sliceable (mapFields : gmap string nat) (v : bytes)
    (name : string) : Prop :=
  match mapFields !! name with
  | Some a =>
      match Split v [comma] !! a with
      | Some col => (2 <= length col)%nat
      | None => False
      end
  | None => True
  end.

Definition row_sliceable (mapFields : gmap string nat) (v : bytes) : Prop :=
  Forall (column_sliceable mapFields v) recognized.

#[global] Instance column_sliceable_dec (mapFields : gmap string nat)
    (v : bytes) (name : string) : Decision (column_sliceable mapFields v name).
Proof.
  unfold column_sliceable. destruct (mapFields !! name); [|apply _].
  destruct (Split v [comma] !! _); apply _.
Defined.

#[global] Instance row_sliceable_dec (mapFields : gmap string nat) (v : bytes) :
  Decision (row_sliceable mapFields v).
Proof. unfold row_sliceable. apply _. Defined.

(** The values one field gets over the rows of a reply: lines 192-215
    restricted to the attribute of [name]. *)
Definition field_values (mapFields : gmap string nat) (name : string)
    (rows : Run (list bytes)) : Run (list string) :=
  resultArray ← rows;
  forR (λ v, attribute mapFields (Split v [comma]) name) resultArray.

(** ** A stand-in for the imported packages

    What [jsonparser] answers for the three keys the source looks up is
    given by a [view] of the reply; the stand-in answers from it. Used to
    run the program on concrete replies. *)
Definition KeyPathNotFoundError : string := "Key path not found".

(** The standard base64 encoding, with padding. *)
Definition base64_digit (n : N) : byte :=
  nth (N.to_nat n)
    (B "ABCDEFGHIJKLMNOPQRSTUVWXYZabcdefghijklmnopqrstuvwxyz0123456789+/")
    "="%byte.

Fixpoint base64_std (s : bytes) : bytes :=
  match s with
  | [] => []
  | [a] =>
      let n := Byte.to_N a in
      [base64_digit (n / 4); base64_digit (n mod 4 * 16); "="%byte; "="%byte]
  | [a; b] =>
      let n := (Byte.to_N a * 256 + Byte.to_N b)%N in
      [base64_digit (n / 1024); base64_digit (n / 16 mod 64);
       base64_digit (n mod 16 * 4); "="%byte]
  | a :: b :: c :: rest =>
      let n := (Byte.to_N a * 65536 + Byte.to_N b * 256 + Byte.to_N c)%N in
      [base64_digit (n / 262144); base64_digit (n / 4096 mod 64);
       base64_digit (n / 64 mod 64); base64_digit (n mod 64)]
      ++ base64_std rest
  end%N.

Record view : Type := {
  errmsg_view : string * option string;
  results_view : bytes * ValueType * option string;
  size_view : Z * option string
}.

Definition view_libs (v : view) : GoLibs := {|
  base64_EncodeToString := fun query => Str (base64_std query);
  strconv_Itoa := fun n => pretty n;
  jsonparser_GetString := fun _ key =>
    if bool_decide (key = "errmsg") then errmsg_view v
    else ("", Some KeyPathNotFoundError);
  jsonparser_Get := fun _ key =>
    if bool_decide (key = "results") then results_view v
    else ([], NotExist, Some KeyPathNotFoundError);
  jsonparser_GetInt := fun _ key =>
    if bool_decide (key = "size") then size_view v
    else (0, Some KeyPathNotFoundError)
|}.


(** The body of a reply with the given view: the JSON object with its
    [size], its [errmsg] and its [results], each when the view has it. A
    string value comes back from the lookup without its quotes. *)
Definition body_of (v : view) : bytes :=
  B "{"
  ++ match size_view v with
     | (n, None) => quoted (B "size") ++ B ":" ++ B (pretty n)
     | _ => []
     end
  ++ match errmsg_view v with
     | (msg, None) => B "," ++ quoted (B "errmsg") ++ B ":" ++ quoted (B msg)
     | _ => []
     end
  ++ match results_view v with
     | (raw, t, _) =>
         if decide (t = NotExist) then []
         else B "," ++ quoted (B "results") ++ B ":"
              ++ (if decide (t = String_) then quoted raw else raw)
     end
  ++ B "}".

(** A client whose transport answers every request with the body of [v]. *)
Definition client_for (v : view) : Fofa :=
  {| email := B "user@example.com"; key := B "k";
     Client_Get := fun _ => inr (body_of v) |}.

(** A reply without error fields, with an array [results] and a [size]. *)
Definition data_view (results : bytes) (n : Z) : view :=
  {| errmsg_view := ("", Some KeyPathNotFoundError);
     results_view := (results, Array, None);
     size_view := (n, None) |}.

(** A reply whose [errmsg] is the string [msg]. *)
Definition errmsg_view_of (msg : string) (results : bytes) (n : Z) : view :=
  {| errmsg_view := (msg, None);
     results_view := (results, Array, None);
     size_view := (n, None) |}.

(** A reply without error fields and without [results]. *)
Definition no_results_view (n : Z) : view :=
  {| errmsg_view := ("", Some KeyPathNotFoundError);
     results_view := ([], NotExist, Some KeyPathNotFoundError);
     size_view := (n, None) |}.

(** A reply without error fields whose [results] is a value of type [t]
    read without error. *)
Definition typed_view (value : bytes) (t : ValueType) (n : Z) : view :=
  {| errmsg_view := ("", Some KeyPathNotFoundError);
     results_view := (value, t, None);
     size_view := (n, None) |}.

(** The row and the query of the example of the specification. *)
Definition example_query : bytes := B "domain=" ++ quoted (B "example.com").

Definition example_row : list bytes :=
  [B "example.com"; B "1.2.3.4:80"; B "1.2.3.4"; B "80"; B "Example";
   B "US"; B "NYC"].

(** The replies the program is run on below. *)
Definition example_reply : view := data_view (render_results [example_row]) 1.
Definition empty_errmsg_reply : view :=
  errmsg_view_of "" (render_results [example_row]) 1.
Definition bad_key_reply : view := errmsg_view_of "bad key" (B "[]") 0.
Definition size_zero_reply : view :=
  data_view (render_results [example_row]) 0.
Definition no_results_reply : view := no_results_view 0.
Definition results_string_reply : view := typed_view (B "abc") String_ 1.
Definition two_columns_reply : view :=
  data_view (render_results [[B "a"; B "b"]]) 1.
Definition unquoted_reply : view := data_view (B "[[xay,(b)]]") 1.
Definition empty_array_reply : view := data_view (B "[]") 1.
Definition numbers_reply : view := data_view (B "[[1,2,3,4,5,6,7]]") 1.
Definition ip_domain_reply : view :=
  data_view (render_results [[B "1.2.3.4"; B "example.com"]]) 1.

(** ** More replies and clients to run the program on *)


(** The record [make] gives before any attribute is assigned. *)
Definition zero_result : result :=
  {| Domain := ""; Host := ""; IP := ""; Port := ""; Title := "";
     Country := ""; City := "" |}.

(** A reply with one row and no [size]. *)
Definition no_size_reply : view :=
  {| errmsg_view := ("", Some KeyPathNotFoundError);
     results_view := (render_results [example_row], Array, None);
     size_view := (0, Some KeyPathNotFoundError) |}.

(** A reply cut off inside its [results] array: the lookup sees an array
    and fails on it. *)
Definition MalformedArrayError : string :=
  "Value is array, but can't find closing ']' symbol".

Definition cut_off_reply : view :=
  {| errmsg_view := ("", Some KeyPathNotFoundError);
     results_view := ([], Array, Some MalformedArrayError);
     size_view := (1, None) |}.


Definition two_rows : list (list bytes) :=
  [[B "1.2.3.4"; B "a.example"]; [B "5.6.7.8"; B "b.example"]].
Definition two_rows_reply : view := data_view (render_results two_rows) 2.





(** The number of commas of a row. *)
Definition commas (v : bytes) : nat := length (filter (λ c, c = comma) v).

(** The least length of [results] for which the slice of the row split is
    in bounds: four bytes on the multi-field path, two on the other. *)
Definition least_results (mapFields : gmap string nat) : Z :=
  if bool_decide (1 < size mapFields)%nat then 4 else 2.

Example Split_rows :
  Split (B "a,b],[c,d],[e") (B "],[") = [B "a,b"; B "c,d"; B "e"].
Proof. reflexivity. Qed.

Example Split_cols : Split (B "a,,b,") (B ",") = [B "a"; []; B "b"; []].
Proof. reflexivity. Qed.

Example Split_empty : Split [] (B ",") = [[]].
Proof. reflexivity. Qed.

Example Trim_example : strings_Trim_space "  ip " = "ip".
Proof. reflexivity. Qed.

(** ** The monad and the slices *)


Lemma forR_panic {A B : Type} (f : A -> Run B) (l : list A) (a : A) :
  a ∈ l → (∃ p, f a = Panic p) → ∃ p, forR f l = Panic p.
Proof.
  intros Hin [p Hp]. induction l as [|b l IH]; [by apply elem_of_nil in Hin|].
  apply elem_of_cons in Hin as [->|Hin].
  - exists p. cbn. by rewrite Hp.
  - cbn. destruct (f b) as [c|q]; cbn; [|by eexists].
    destruct (IH Hin) as [q ->]. by eexists.
Qed.

Lemma forR_Return {A B : Type} (f : A -> Run B) (l : list A) (bs : list B) :
  forR f l = Return bs →
  length bs = length l ∧
  ∀ i a, l !! i = Some a → ∃ b, bs !! i = Some b ∧ f a = Return b.
Proof.
  revert bs. induction l as [|a l IH]; intros bs H; cbn in H.
  - inversion H; subst. split; [done|]. intros i a Hi. by destruct i.
  - destruct (f a) as [b|] eqn:Hfa; cbn in H; [|done].
    destruct (forR f l) as [bs'|] eqn:Hl; cbn in H; [|done].
    inversion H; subst. destruct (IH bs' eq_refl) as [Hlen Hall].
    split; [cbn; by rewrite Hlen|].
    intros [|i] x Hi; cbn in Hi.
    + inversion Hi; subst. by exists b.
    + by apply Hall.
Qed.

Lemma slice_middle (pre mid post : bytes) :
  slice (pre ++ mid ++ post) (len pre) (len (pre ++ mid ++ post) - len post)
  = Return mid.
Proof.
  unfold slice, len. rewrite !length_app.
  rewrite bool_decide_eq_true_2 by lia. f_equal.
  rewrite Nat2Z.id, drop_app_length.
  replace (Z.to_nat _) with (length mid) by lia.
  by rewrite take_app_length.
Qed.

Lemma slice_short (s : bytes) (k : Z) :
  0 < k → len s < 2 * k → slice s k (len s - k) = Panic SliceBoundsOutOfRange.
Proof.
  intros Hk Hs. unfold slice, len in *. rewrite bool_decide_eq_false_2; [done|lia].
Qed.


(** ** [Split] on the text of rows and columns *)

Lemma split_from_skip (sep : bytes) (k : nat) (cur s : bytes) :
  split_from sep k cur s = split_from sep 0 cur (drop k s).
Proof.
  revert s. induction k as [|k IH]; intros s; [done|].
  destruct s as [|c s]; [done|]. cbn. apply IH.
Qed.

Lemma split_from_Index (sep cur s : bytes) :
  sep ≠ [] →
  split_from sep 0 cur s =
  match Index s sep with
  | None => [rev cur ++ s]
  | Some m => (rev cur ++ take m s) :: Split (drop (m + length sep) s) sep
  end.
Proof.
  intros Hsep. destruct sep as [|x sep]; [done|]. clear Hsep.
  revert cur. induction s as [|c s IH]; intros cur.
  - cbn. by rewrite app_nil_r.
  - cbn [split_from Index]. destruct (has_prefix (x :: sep) (c :: s)).
    + cbn [take drop length Nat.add Nat.sub]. rewrite app_nil_r, Nat.sub_0_r.
      by rewrite split_from_skip.
    + rewrite IH. destruct (Index s (x :: sep)) as [m|]; cbn.
      * by rewrite <- app_assoc.
      * by rewrite <- app_assoc.
Qed.

(** [Split] is the loop of the standard library: cut at the first
    occurrence of the separator and go on after it; the rest is the last
    piece. *)
Lemma Split_Index (s sep : bytes) :
  sep ≠ [] →
  Split s sep =
  match Index s sep with
  | None => [s]
  | Some m => take m s :: Split (drop (m + length sep) s) sep
  end.
Proof. intros Hsep. unfold Split at 1. by rewrite split_from_Index. Qed.













(** ** The checks in front of the splitting step *)

Lemma QueryAsArray_reaches_split `{libs : GoLibs} (ff : Fofa) (page : N)
    (args : Args) (data results : bytes) :
  reaches_split ff page args data results →
  QueryAsArray ff page args = split_and_parse (make_mapFields args) results.
Proof.
  intros (Hget & Herr & Hres & n & Hsize & Hn).
  unfold QueryAsArray, QueryAsJSON, parse_reply. rewrite Hget.
  destruct (jsonparser_GetString data "errmsg") as [errmsg [e|]] eqn:Hmsg;
    [|by cbn in Herr].
  cbn. rewrite Hmsg, Hres, Hsize.
  rewrite bool_decide_eq_false_2 by (intros H; by apply H).
  rewrite (proj2 (Z.ltb_ge n 1)) by lia. done.
Qed.

(** ** One attribute, one row *)

Lemma attribute_unmapped (mapFields : gmap string nat) (tmp : list bytes)
    (name : string) :
  mapFields !! name = None → attribute mapFields tmp name = Return "".
Proof. unfold attribute. by intros ->. Qed.

Lemma attribute_stripped (mapFields : gmap string nat) (tmp : list bytes)
    (name : string) (a : nat) (first last : byte) (mid : bytes) :
  mapFields !! name = Some a → tmp !! a = Some (first :: mid ++ [last]) →
  attribute mapFields tmp name = Return (Str mid).
Proof.
  unfold attribute, index, strip. intros -> ->. cbn.
  pose proof (slice_middle [first] mid [last]) as H.
  cbn [app] in H. change (len [first]) with 1 in H. change (len [last]) with 1 in H.
  by rewrite H.
Qed.

Lemma attribute_no_column (mapFields : gmap string nat) (tmp : list bytes)
    (name : string) (a : nat) :
  mapFields !! name = Some a → (length tmp <= a)%nat →
  attribute mapFields tmp name = Panic IndexOutOfRange.
Proof.
  unfold attribute, index. intros -> Ha.
  by rewrite (lookup_ge_None_2 tmp a Ha).
Qed.

Lemma attribute_short_column (mapFields : gmap string nat) (tmp : list bytes)
    (name : string) (a : nat) (col : bytes) :
  mapFields !! name = Some a → tmp !! a = Some col → (length col < 2)%nat →
  attribute mapFields tmp name = Panic SliceBoundsOutOfRange.
Proof.
  unfold attribute, index, strip. intros -> -> Hcol. cbn.
  rewrite (slice_short col 1); [done|lia|unfold len; lia].
Qed.

(** A byte string of at least two bytes is a first byte, a middle and a
    last byte. *)
Lemma two_bytes_ends (col : bytes) :
  (2 <= length col)%nat → ∃ first mid last, col = first :: mid ++ [last].
Proof.
  intros Hcol. destruct col as [|first col]; [cbn in Hcol; lia|].
  destruct (decide (col = [])) as [->|Hne]; [cbn in Hcol; lia|].
  destruct (exists_last Hne) as (mid & last & ->). by exists first, mid, last.
Qed.

Ltac solve_recognized := unfold recognized; repeat constructor.

Lemma recognized_cases (name : string) (P : string → Prop) :
  name ∈ recognized →
  P "domain" → P "host" → P "ip" → P "port" → P "title" → P "country" →
  P "city" → P name.
Proof.
  unfold recognized. intros Hin.
  repeat (apply elem_of_cons in Hin as [->|Hin]; [done|]).
  by apply elem_of_nil in Hin.
Qed.

(** [parse_row] returns exactly when each of the seven attributes is
    computed, and then the record holds their values. *)
Lemma parse_row_Return (mapFields : gmap string nat) (v : bytes) (r : result) :
  parse_row mapFields v = Return r ↔
  ∀ name, name ∈ recognized →
    attribute mapFields (Split v [comma]) name = Return (get_attribute name r).
Proof.
  unfold parse_row. split.
  - intros H name Hname.
    destruct (attribute _ _ "domain") as [d|] eqn:Hd; cbn in H; [|done].
    destruct (attribute _ _ "host") as [h|] eqn:Hh; cbn in H; [|done].
    destruct (attribute _ _ "ip") as [i|] eqn:Hi; cbn in H; [|done].
    destruct (attribute _ _ "port") as [p|] eqn:Hp; cbn in H; [|done].
    destruct (attribute _ _ "title") as [t|] eqn:Ht; cbn in H; [|done].
    destruct (attribute _ _ "country") as [c|] eqn:Hc; cbn in H; [|done].
    destruct (attribute _ _ "city") as [y|] eqn:Hy; cbn in H; [|done].
    inversion H; subst r.
    by apply (recognized_cases name
      (λ n, attribute mapFields (Split v [comma]) n = Return (get_attribute n _))).
  - intros H.
    rewrite (H "domain"), (H "host"), (H "ip"), (H "port"), (H "title"),
      (H "country"), (H "city") by solve_recognized.
    cbn. by destruct r.
Qed.

Lemma parse_row_Panic (mapFields : gmap string nat) (v : bytes) (name : string)
    (p : panic) :
  name ∈ recognized →
  attribute mapFields (Split v [comma]) name = Panic p →
  ∃ q, parse_row mapFields v = Panic q.
Proof.
  intros Hname Hp. destruct (parse_row mapFields v) as [r|q] eqn:Hr; [|by eexists].
  pose proof (proj1 (parse_row_Return _ _ _) Hr name Hname) as Hv.
  rewrite Hv in Hp. done.
Qed.

(** ** The field mapping *)



Lemma make_mapFields_default (args : Args) :
  (∀ fields, args !! 1%nat ≠ Some (Some fields)) →
  make_mapFields args = default_mapFields.
Proof.
  intros H. destruct args as [|a0 [|[f|] rest]]; try done.
  by destruct (H f).
Qed.




(** ** Replies of seven-column rows *)




(** ** The error message of the reply *)

(** C10. When the lookup of a string-valued [errmsg] in the response body
    succeeds, [QueryAsJSON] returns the whole body together with a non-nil
    error made from that message; this holds for every message, the empty
    one included. *)
Theorem QueryAsJSON_errmsg `{libs : GoLibs} (ff : Fofa) (page : N)
    (args : Args) (buf : bytes) (errmsg : string) :
  Client_Get ff (request_url ff page args) = inr buf →
  jsonparser_GetString buf "errmsg" = (errmsg, None) →
  QueryAsJSON ff page args = (buf, Some (errors_New errmsg)) ∧
  Error (errors_New errmsg) = errmsg.
Proof.
  intros Hget Hmsg. unfold QueryAsJSON. by rewrite Hget, Hmsg.
Qed.

(** An empty [errmsg]: the body comes back with an error whose message is
    empty. *)
Lemma QueryAsJSON_errmsg_witness :
  QueryAsJSON (libs := view_libs empty_errmsg_reply)
    (client_for empty_errmsg_reply) 1 [Some example_query]
  = (body_of empty_errmsg_reply, Some (errors_New "")) ∧
  Error (errors_New "") = "".
Proof.
  apply (QueryAsJSON_errmsg (libs := view_libs empty_errmsg_reply)
           (client_for empty_errmsg_reply) 1 [Some example_query]
           (body_of empty_errmsg_reply) "");
    reflexivity.
Defined.

Lemma QueryAsArray_errmsg `{libs : GoLibs} (ff : Fofa) (page : N)
    (args : Args) (data : bytes) (errmsg : string) :
  Client_Get ff (request_url ff page args) = inr data →
  jsonparser_GetString data "errmsg" = (errmsg, None) →
  QueryAsArray ff page args = Return ([], Some (errors_New errmsg)).
Proof.
  intros Hget Hmsg. unfold QueryAsArray, QueryAsJSON. by rewrite Hget, Hmsg.
Qed.

Lemma QueryAsArray_no_errmsg `{libs : GoLibs} (ff : Fofa) (page : N)
    (args : Args) (data : bytes) :
  Client_Get ff (request_url ff page args) = inr data →
  (jsonparser_GetString data "errmsg").2 ≠ None →
  QueryAsArray ff page args = parse_reply (make_mapFields args) data.
Proof.
  intros Hget Hmsg. unfold QueryAsArray, QueryAsJSON. rewrite Hget.
  destruct (jsonparser_GetString data "errmsg") as [m [e|]]; [done|].
  by cbn in Hmsg.
Qed.

(** Without an [errmsg] string the parser never returns an error made from
    a message of the reply. *)
Lemma parse_reply_not_errors_New `{libs : GoLibs} (mapFields : gmap string nat)
    (data : bytes) (records : Results) (msg : string) :
  (jsonparser_GetString data "errmsg").2 ≠ None →
  parse_reply mapFields data ≠ Return (records, Some (errors_New msg)).
Proof.
  intros Hmsg. unfold parse_reply.
  destruct (jsonparser_GetString data "errmsg") as [m [e|]]; [|by cbn in Hmsg].
  destruct (jsonparser_Get data "results") as [[results t] [e'|]];
    case_bool_decide; try done.
  destruct (jsonparser_GetInt data "size") as [n [e''|]]; [done|].
  destruct (n <? 1)%Z; [done|]. unfold split_and_parse.
  destruct (split_rows mapFields results) as [rs|]; [|done]. cbn.
  destruct (forR (parse_row mapFields) rs); done.
Qed.

(** C2 (as the code has it). Once the transport has answered,
    [QueryAsArray] returns an error made from a message of the reply
    exactly when the lookup of a string-valued [errmsg] succeeds, whether
    the message is empty or not; the error carries that message and no
    record comes with it. A reply without [errmsg] goes on to the parser
    and never gives such an error. *)
Theorem QueryAsArray_errmsg_iff `{libs : GoLibs} (ff : Fofa) (page : N)
    (args : Args) (data : bytes) :
  Client_Get ff (request_url ff page args) = inr data →
  (∀ (records : Results) (msg : string),
     QueryAsArray ff page args = Return (records, Some (errors_New msg)) ↔
     records = [] ∧ jsonparser_GetString data "errmsg" = (msg, None)) ∧
  ((jsonparser_GetString data "errmsg").2 ≠ None →
     QueryAsArray ff page args = parse_reply (make_mapFields args) data).
Proof.
  intros Hget. split; [|by apply QueryAsArray_no_errmsg].
  intros records msg. split.
  - intros Hq.
    destruct (jsonparser_GetString data "errmsg") as [m [e|]] eqn:Hmsg.
    + rewrite (QueryAsArray_no_errmsg ff page args data Hget) in Hq
        by (by rewrite Hmsg).
      apply parse_reply_not_errors_New in Hq; [done|by rewrite Hmsg].
    + rewrite (QueryAsArray_errmsg ff page args data m Hget Hmsg) in Hq.
      by inversion Hq.
  - intros [-> Hmsg]. by apply (QueryAsArray_errmsg ff page args data).
Qed.

Lemma QueryAsArray_errmsg_iff_witness :
  QueryAsArray (libs := view_libs bad_key_reply)
    (client_for bad_key_reply) 1 [Some example_query]
  = Return ([], Some (errors_New "bad key")).
Proof.
  apply (proj1 (QueryAsArray_errmsg_iff
                  (libs := view_libs bad_key_reply)
                  (client_for bad_key_reply) 1 [Some example_query]
                  (body_of bad_key_reply)
                  eq_refl)).
  split; reflexivity.
Defined.

(** C2, the claim as written fails: a reply whose [errmsg] is the empty
    string, with one well-formed row and size 1, gives an error (with the
    empty message) and no record. *)
Lemma QueryAsArray_empty_errmsg :
  jsonparser_GetString (GoLibs := view_libs empty_errmsg_reply)
    (body_of empty_errmsg_reply) "errmsg" = ("", None) ∧
  QueryAsArray (libs := view_libs empty_errmsg_reply)
    (client_for empty_errmsg_reply) 1 [Some example_query]
  = Return ([], Some (errors_New "")).
Proof. split; reflexivity. Qed.

(** ** The checks on [results] and [size] *)

(** C4 (as the code has it). For every reply that has no [errmsg] string
    and whose [results] is an array read without error, whatever bytes
    the array holds: if [size] is present and below 1, [QueryAsArray]
    returns the no-data error and no record. *)
Theorem QueryAsArray_no_data `{libs : GoLibs} (ff : Fofa) (page : N)
    (args : Args) (data results : bytes) (n : Z) :
  Client_Get ff (request_url ff page args) = inr data →
  (jsonparser_GetString data "errmsg").2 ≠ None →
  jsonparser_Get data "results" = (results, Array, None) →
  jsonparser_GetInt data "size" = (n, None) →
  n < 1 →
  QueryAsArray ff page args = Return ([], Some errFofaReplyNoData).
Proof.
  intros Hget Hmsg Hres Hsize Hn.
  rewrite (QueryAsArray_no_errmsg ff page args data Hget Hmsg).
  unfold parse_reply.
  destruct (jsonparser_GetString data "errmsg") as [m [e|]]; [|by cbn in Hmsg].
  rewrite Hres, Hsize.
  rewrite bool_decide_eq_false_2 by (intros H; by apply H).
  by rewrite (proj2 (Z.ltb_lt n 1)) by lia.
Qed.

(** Size 0 with a row in [results]: the row is not looked at. *)
Lemma QueryAsArray_no_data_witness :
  QueryAsArray (libs := view_libs size_zero_reply)
    (client_for size_zero_reply) 1 [Some example_query]
  = Return ([], Some errFofaReplyNoData).
Proof.
  apply (QueryAsArray_no_data
           (libs := view_libs size_zero_reply)
           (client_for size_zero_reply) 1 [Some example_query]
           (body_of size_zero_reply)
           (render_results [example_row]) 0);
    [reflexivity | vm_compute; discriminate | reflexivity | reflexivity | lia].
Defined.

(** C4, the claim as written fails: with size 0, a reply without [results]
    gives the error of the lookup, and a reply with an [errmsg] string
    gives the error of that message; neither gives the no-data error. *)
Lemma QueryAsArray_size_zero_other_errors :
  (jsonparser_GetInt (GoLibs := view_libs no_results_reply)
     (body_of no_results_reply) "size" = (0, None) ∧
   QueryAsArray (libs := view_libs no_results_reply)
     (client_for no_results_reply) 1 [Some example_query]
   = Return ([], Some (lib_error KeyPathNotFoundError))) ∧
  (jsonparser_GetInt (GoLibs := view_libs bad_key_reply)
     (body_of bad_key_reply) "size" = (0, None) ∧
   QueryAsArray (libs := view_libs bad_key_reply)
     (client_for bad_key_reply) 1 [Some example_query]
   = Return ([], Some (errors_New "bad key"))).
Proof. repeat split; reflexivity. Qed.

(** A [results] that is missing, or read with an error, gives that error
    and no record. *)
Lemma QueryAsArray_results_error `{libs : GoLibs} (ff : Fofa) (page : N)
    (args : Args) (data value : bytes) (t : ValueType) (e : string) :
  Client_Get ff (request_url ff page args) = inr data →
  (jsonparser_GetString data "errmsg").2 ≠ None →
  jsonparser_Get data "results" = (value, t, Some e) →
  QueryAsArray ff page args = Return ([], Some (lib_error e)).
Proof.
  intros Hget Hmsg Hres.
  rewrite (QueryAsArray_no_errmsg ff page args data Hget Hmsg).
  unfold parse_reply.
  destruct (jsonparser_GetString data "errmsg") as [m [e'|]]; [|by cbn in Hmsg].
  rewrite Hres. by case_bool_decide.
Qed.

(** A [results] of another type than array, read without error: line 171
    calls [err.Error()] on a nil error. *)
Lemma QueryAsArray_results_not_array `{libs : GoLibs} (ff : Fofa) (page : N)
    (args : Args) (data value : bytes) (t : ValueType) :
  Client_Get ff (request_url ff page args) = inr data →
  (jsonparser_GetString data "errmsg").2 ≠ None →
  jsonparser_Get data "results" = (value, t, None) →
  t ≠ Array →
  QueryAsArray ff page args = Panic NilDereference.
Proof.
  intros Hget Hmsg Hres Ht.
  rewrite (QueryAsArray_no_errmsg ff page args data Hget Hmsg).
  unfold parse_reply.
  destruct (jsonparser_GetString data "errmsg") as [m [e'|]]; [|by cbn in Hmsg].
  rewrite Hres. by rewrite bool_decide_eq_true_2.
Qed.

(** C5, at a reply whose [results] is the JSON string [abc] (size 1, no
    error fields): the lookup gives the type string and no error, and
    [QueryAsArray] panics instead of returning an error. *)
Theorem QueryAsArray_results_string_panics :
  QueryAsArray (libs := view_libs results_string_reply)
    (client_for results_string_reply) 1 [Some example_query]
  = Panic NilDereference.
Proof. reflexivity. Qed.

(** ** Rows and columns the slices do not fit *)

Lemma split_and_parse_panic (mapFields : gmap string nat) (results : bytes)
    (rs : list bytes) (v : bytes) (name : string) (p : panic) :
  split_rows mapFields results = Return rs →
  v ∈ rs → name ∈ recognized →
  attribute mapFields (Split v [comma]) name = Panic p →
  ∃ q, split_and_parse mapFields results = Panic q.
Proof.
  intros Hrs Hv Hname Hp. unfold split_and_parse. rewrite Hrs. cbn.
  destruct (forR_panic (parse_row mapFields) rs v Hv) as [q Hq].
  - by apply (parse_row_Panic mapFields v name p).
  - exists q. by rewrite Hq.
Qed.

Lemma parse_row_sliceable (mapFields : gmap string nat) (v : bytes) :
  row_sliceable mapFields v → ∃ r, parse_row mapFields v = Return r.
Proof.
  unfold row_sliceable. rewrite Forall_forall. intros Hrow.
  assert (∀ name, name ∈ recognized →
            ∃ s, attribute mapFields (Split v [comma]) name = Return s) as Hattr.
  { intros name Hname. specialize (Hrow name Hname).
    unfold column_sliceable in Hrow.
    destruct (mapFields !! name) as [a|] eqn:Hm;
      [|exists ""; by apply attribute_unmapped].
    destruct (Split v [comma] !! a) as [col|] eqn:Hcol; [|done].
    destruct (two_bytes_ends col Hrow) as (first & mid & last & ->).
    exists (Str mid). by apply (attribute_stripped _ _ _ a first last). }
  destruct (Hattr "domain") as [d Hd]; [solve_recognized|].
  destruct (Hattr "host") as [h Hh]; [solve_recognized|].
  destruct (Hattr "ip") as [i Hi]; [solve_recognized|].
  destruct (Hattr "port") as [p Hp]; [solve_recognized|].
  destruct (Hattr "title") as [t Ht]; [solve_recognized|].
  destruct (Hattr "country") as [c Hc]; [solve_recognized|].
  destruct (Hattr "city") as [y Hy]; [solve_recognized|].
  eexists. unfold parse_row. rewrite Hd, Hh, Hi, Hp, Ht, Hc, Hy. reflexivity.
Qed.

Lemma forR_total {A B : Type} (f : A -> Run B) (l : list A) :
  (∀ a, a ∈ l → ∃ b, f a = Return b) → ∃ bs, forR f l = Return bs.
Proof.
  induction l as [|a l IH]; intros Hl; [by exists []|].
  destruct (Hl a) as [b Hb]; [by left|].
  destruct IH as [bs Hbs]; [intros x Hx; apply Hl; by right|].
  exists (b :: bs). cbn. by rewrite Hb, Hbs.
Qed.

(** What a returned record holds for one recognized field. *)
Lemma parse_row_attribute (mapFields : gmap string nat) (v : bytes)
    (r : result) (name : string) :
  parse_row mapFields v = Return r → name ∈ recognized →
  match mapFields !! name with
  | Some a =>
      ∃ first mid last,
        Split v [comma] !! a = Some (first :: mid ++ [last]) ∧
        get_attribute name r = Str mid
  | None => get_attribute name r = ""
  end.
Proof.
  intros Hr Hname.
  pose proof (proj1 (parse_row_Return _ _ _) Hr name Hname) as Hattr.
  destruct (mapFields !! name) as [a|] eqn:Hm.
  - destruct (Split v [comma] !! a) as [col|] eqn:Hcol.
    + destruct (decide (2 <= length col)%nat) as [Hlen|Hlen].
      * destruct (two_bytes_ends col Hlen) as (first & mid & last & ->).
        exists first, mid, last. split; [done|].
        rewrite (attribute_stripped _ _ _ a first last mid Hm Hcol) in Hattr.
        by inversion Hattr.
      * rewrite (attribute_short_column _ _ _ a col Hm Hcol) in Hattr by lia.
        done.
    + rewrite (attribute_no_column _ _ _ a Hm) in Hattr; [done|].
      by apply lookup_ge_None.
  - rewrite (attribute_unmapped _ _ _ Hm) in Hattr. by inversion Hattr.
Qed.

(** C6 (as the code has it). For every row of a reply that reaches the
    splitting step and every recognized field name of the mapping whose
    column index is not in that row, the lookup [tmp[a]] of that
    attribute is out of range, and [QueryAsArray] panics and returns no
    record at all. In every record that is returned, the attribute of a
    recognized name that the mapping does not hold is the empty string. *)
Theorem QueryAsArray_missing_column `{libs : GoLibs} (ff : Fofa) (page : N)
    (args : Args) (data results : bytes) (rs : list bytes) (name : string) :
  reaches_split ff page args data results →
  split_rows (make_mapFields args) results = Return rs →
  name ∈ recognized →
  (∀ (v : bytes) (a : nat),
     v ∈ rs → make_mapFields args !! name = Some a →
     (length (Split v [comma]) <= a)%nat →
     attribute (make_mapFields args) (Split v [comma]) name
     = Panic IndexOutOfRange ∧
     ∃ p, QueryAsArray ff page args = Panic p) ∧
  (make_mapFields args !! name = None →
   ∀ (records : Results) (e : option error) (r : result),
     QueryAsArray ff page args = Return (records, e) → r ∈ records →
     get_attribute name r = "").
Proof.
  intros Hreach Hrs Hname.
  rewrite (QueryAsArray_reaches_split ff page args data results Hreach).
  split.
  - intros v a Hv Hm Hlen.
    pose proof (attribute_no_column _ _ _ a Hm Hlen) as Hattr.
    split; [exact Hattr|].
    by apply (split_and_parse_panic _ results rs v name IndexOutOfRange).
  - intros Hm records e r Hq Hr. unfold split_and_parse in Hq.
    rewrite Hrs in Hq. cbn in Hq.
    destruct (forR (parse_row (make_mapFields args)) rs) as [recs|] eqn:Hfor;
      [|done].
    cbn in Hq. inversion Hq; subst records e.
    destruct (forR_Return _ _ _ Hfor) as [Hlen Hall].
    apply list_elem_of_lookup in Hr as [i Hi].
    destruct (rs !! i) as [v|] eqn:Hv.
    + destruct (Hall i v Hv) as (r' & Hr' & Hparse).
      rewrite Hi in Hr'. inversion Hr'; subst r'.
      pose proof (parse_row_attribute _ _ _ name Hparse Hname) as Hattr.
      by rewrite Hm in Hattr.
    + apply lookup_ge_None in Hv. apply lookup_lt_Some in Hi. lia.
Qed.

(** A row of two columns under the default mapping: the third column,
    which [ip] points at, is not there. *)
Lemma QueryAsArray_missing_column_witness :
  attribute (make_mapFields [Some example_query])
    (Split (render_row [B "a"; B "b"]) [comma]) "ip"
  = Panic IndexOutOfRange ∧
  ∃ p,
    QueryAsArray
      (libs := view_libs two_columns_reply)
      (client_for two_columns_reply) 1 [Some example_query] = Panic p.
Proof.
  refine (proj1 (QueryAsArray_missing_column
            (libs := view_libs two_columns_reply)
            (client_for two_columns_reply) 1 [Some example_query]
            (body_of two_columns_reply)
            (render_results [[B "a"; B "b"]]) [render_row [B "a"; B "b"]] "ip"
            _ _ _) (render_row [B "a"; B "b"]) 2%nat _ _ _).
  - repeat split; [vm_compute; discriminate|].
    exists 1. split; [reflexivity|lia].
  - reflexivity.
  - solve_recognized.
  - left.
  - reflexivity.
  - vm_compute. lia.
Defined.

(** C6, the claim as written fails: for that reply no record is returned,
    the index [tmp[2]] is out of range. *)
Lemma QueryAsArray_two_columns_panics :
  make_mapFields [Some example_query] !! "ip" = Some 2%nat ∧
  length (Split (render_row [B "a"; B "b"]) [comma]) = 2%nat ∧
  QueryAsArray
    (libs := view_libs two_columns_reply)
    (client_for two_columns_reply) 1 [Some example_query]
  = Panic IndexOutOfRange.
Proof. repeat split; reflexivity. Qed.

(** C7. For every reply that reaches the splitting step: when the columns
    the mapping points at are all present with at least two bytes,
    [QueryAsArray] returns one record per row, and for every column
    [first :: mid ++ [last]] that a recognized field of the mapping points
    at, the attribute is [mid]; the first and the last byte are dropped
    whatever they are. Nothing checks the length either: a mapped column
    of fewer than two bytes makes the slice, and the call, panic. *)
Theorem QueryAsArray_strips_ends `{libs : GoLibs} (ff : Fofa) (page : N)
    (args : Args) (data results : bytes) (rs : list bytes) :
  reaches_split ff page args data results →
  split_rows (make_mapFields args) results = Return rs →
  (Forall (row_sliceable (make_mapFields args)) rs →
   ∃ records : Results,
     QueryAsArray ff page args = Return (records, None) ∧
     length records = length rs ∧
     ∀ (i : nat) (v : bytes) (r : result) (name : string) (a : nat)
       (first last : byte) (mid : bytes),
       rs !! i = Some v → records !! i = Some r →
       name ∈ recognized → make_mapFields args !! name = Some a →
       Split v [comma] !! a = Some (first :: mid ++ [last]) →
       get_attribute name r = Str mid) ∧
  (∀ (v : bytes) (name : string) (a : nat) (col : bytes),
     v ∈ rs → name ∈ recognized → make_mapFields args !! name = Some a →
     Split v [comma] !! a = Some col → (length col < 2)%nat →
     ∃ p, QueryAsArray ff page args = Panic p).
Proof.
  intros Hreach Hrs.
  rewrite (QueryAsArray_reaches_split ff page args data results Hreach).
  split.
  - intros Hok. unfold split_and_parse. rewrite Hrs. cbn.
    destruct (forR_total (parse_row (make_mapFields args)) rs)
      as [records Hfor].
    { intros v Hv. rewrite Forall_forall in Hok.
      by apply parse_row_sliceable, Hok. }
    exists records. rewrite Hfor. cbn.
    destruct (forR_Return _ _ _ Hfor) as [Hlen Hall].
    split; [done|]. split; [done|].
    intros i v r name a first last mid Hv Hr Hname Hm Hcol.
    destruct (Hall i v Hv) as (r' & Hr' & Hparse).
    rewrite Hr in Hr'. inversion Hr'; subst r'.
    pose proof (parse_row_attribute _ _ _ name Hparse Hname) as Hattr.
    rewrite Hm in Hattr. destruct Hattr as (f' & m' & l' & Hcol' & ->).
    rewrite Hcol in Hcol'. inversion Hcol' as [[Hf Hml]].
    apply app_inj_tail in Hml as [-> _]. done.
  - intros v name a col Hv Hname Hm Hcol Hlen.
    apply (split_and_parse_panic _ results rs v name SliceBoundsOutOfRange);
      [done..|].
    by apply (attribute_short_column _ _ _ a col).
Qed.

(** Columns without quotes, fields [ip,domain]: the row [xay,(b)] gives
    the address [a] and the domain [b]. *)
Lemma QueryAsArray_strips_ends_witness :
  ∃ records r,
    QueryAsArray (libs := view_libs unquoted_reply)
      (client_for unquoted_reply) 1 [Some example_query; Some (B "ip,domain")]
    = Return (records, None) ∧
    records !! 0%nat = Some r ∧ IP r = "a" ∧ Domain r = "b".
Proof.
  destruct (QueryAsArray_strips_ends
              (libs := view_libs unquoted_reply)
              (client_for unquoted_reply) 1
              [Some example_query; Some (B "ip,domain")]
              (body_of unquoted_reply) (B "[[xay,(b)]]") [B "xay,(b)"])
    as [Hsome _].
  - repeat split; [vm_compute; discriminate|].
    exists 1. split; [reflexivity|lia].
  - reflexivity.
  - destruct Hsome as (records & Hq & Hlen & Hrec);
      [apply (bool_decide_unpack _); vm_compute; exact I|].
    destruct records as [|r [|? ?]]; try discriminate Hlen.
    exists [r], r. split; [exact Hq|]. split; [reflexivity|]. split.
    + apply (Hrec 0%nat (B "xay,(b)") r "ip" 0%nat "x"%byte "y"%byte (B "a"));
        [reflexivity | reflexivity | solve_recognized | reflexivity
        | reflexivity].
    + apply (Hrec 0%nat (B "xay,(b)") r "domain" 1%nat "("%byte ")"%byte
               (B "b"));
        [reflexivity | reflexivity | solve_recognized | reflexivity
        | reflexivity].
Defined.

(** C9. Three replies pass the checks on the error message, on the type
    of [results] and on [size], and make [QueryAsArray] panic in a slice
    or index expression: an array of fewer than four bytes, a row with
    fewer columns than the index of a mapped field, and a column of fewer
    than two bytes. *)
Theorem QueryAsArray_not_total :
  (∃ (libs : GoLibs) ff page args data results,
     reaches_split ff page args data results ∧
     len results < 4 ∧
     QueryAsArray ff page args = Panic SliceBoundsOutOfRange) ∧
  (∃ (libs : GoLibs) ff page args data results rs v name a,
     reaches_split ff page args data results ∧
     split_rows (make_mapFields args) results = Return rs ∧ v ∈ rs ∧
     name ∈ recognized ∧ make_mapFields args !! name = Some a ∧
     (length (Split v [comma]) <= a)%nat ∧
     QueryAsArray ff page args = Panic IndexOutOfRange) ∧
  (∃ (libs : GoLibs) ff page args data results rs v name a col,
     reaches_split ff page args data results ∧
     split_rows (make_mapFields args) results = Return rs ∧ v ∈ rs ∧
     name ∈ recognized ∧ make_mapFields args !! name = Some a ∧
     Split v [comma] !! a = Some col ∧ (length col < 2)%nat ∧
     QueryAsArray ff page args = Panic SliceBoundsOutOfRange).
Proof.
  assert (∀ results,
            reaches_split (libs := view_libs (data_view results 1))
              (client_for (data_view results 1)) 1 [Some example_query]
              (body_of (data_view results 1))
              results) as Hreach.
  { intros results. repeat split; [vm_compute; discriminate|].
    exists 1. split; [reflexivity|lia]. }
  split; [|split].
  - exists (view_libs empty_array_reply), (client_for empty_array_reply), 1%N,
      [Some example_query], (body_of empty_array_reply), (B "[]").
    split; [apply Hreach|]. split; [vm_compute; reflexivity|reflexivity].
  - exists (view_libs two_columns_reply),
      (client_for two_columns_reply), 1%N, [Some example_query],
      (body_of two_columns_reply),
      (render_results [[B "a"; B "b"]]), [render_row [B "a"; B "b"]],
      (render_row [B "a"; B "b"]), "ip", 2%nat.
    split; [apply Hreach|]. split; [reflexivity|]. split; [left|].
    split; [solve_recognized|]. split; [reflexivity|].
    split; [vm_compute; lia|reflexivity].
  - exists (view_libs numbers_reply),
      (client_for numbers_reply), 1%N, [Some example_query],
      (body_of numbers_reply),
      (B "[[1,2,3,4,5,6,7]]"), [B "1,2,3,4,5,6,7"], (B "1,2,3,4,5,6,7"),
      "domain", 0%nat, (B "1").
    split; [apply Hreach|]. split; [reflexivity|]. split; [left|].
    split; [solve_recognized|]. split; [reflexivity|].
    split; [reflexivity|]. split; [vm_compute; lia|reflexivity].
Qed.

(** ** The two split paths *)





(** The two paths are made for arrays of different shapes: on the same
    bytes they give different values. On a flat array the single-field
    path gives the two values and the multi-field split one empty value;
    on an array of one-column rows the multi-field split gives the two
    values and the single-field split leaves the quotes on. *)
Lemma split_paths_differ_on_same_bytes :
  let flat := render_flat [B "a"; B "b"] in
  let nested := render_results [[B "a"]; [B "b"]] in
  let mapFields : gmap string nat := {["ip" := 0%nat]} in
  field_values mapFields "ip" (single_field_rows flat) = Return ["a"; "b"] ∧
  field_values mapFields "ip" (multi_field_rows flat) = Return [""] ∧
  field_values mapFields "ip" (single_field_rows nested)
  = Return [Str (quoted (B "a")); Str (quoted (B "b"))] ∧
  field_values mapFields "ip" (multi_field_rows nested) = Return ["a"; "b"].
Proof. repeat split; reflexivity. Qed.

(** ** The mapping of a custom field list *)

Lemma map_fields_from_absent (i : nat) (fields : list string)
    (mapFields : gmap string nat) (name : string) :
  name ∉ strings_Trim_space <$> fields →
  map_fields_from i fields mapFields !! name = mapFields !! name.
Proof.
  revert i mapFields. induction fields as [|field rest IH];
    intros i mapFields Hname; [done|].
  rewrite fmap_cons in Hname. apply not_elem_of_cons in Hname as [Hne Hrest].
  cbn. rewrite IH by done. by apply lookup_insert_ne.
Qed.

Lemma map_fields_from_last (i j : nat) (fields : list string)
    (mapFields : gmap string nat) (name : string) :
  (strings_Trim_space <$> fields) !! j = Some name →
  (∀ j', (j < j')%nat → (strings_Trim_space <$> fields) !! j' ≠ Some name) →
  map_fields_from i fields mapFields !! name = Some (i + j)%nat.
Proof.
  revert i j mapFields. induction fields as [|field rest IH];
    intros i j mapFields Hj Hlast; [done|].
  destruct j as [|j]; cbn in Hj.
  - inversion Hj as [Hfield]. cbn. rewrite map_fields_from_absent.
    + rewrite Hfield, lookup_insert_eq. f_equal. lia.
    + intros Hin. apply list_elem_of_lookup in Hin as [j' Hj'].
      apply (Hlast (S j')); [lia|rewrite <- Hfield; exact Hj'].
  - cbn. rewrite (IH (S i) j); [f_equal; lia|exact Hj|].
    intros j' Hlt. apply (Hlast (S j')). lia.
Qed.

Lemma last_occurrence (l : list string) (name : string) :
  name ∈ l →
  ∃ j, l !! j = Some name ∧ ∀ j', (j < j')%nat → l !! j' ≠ Some name.
Proof.
  induction l as [|x l IH]; intros Hin; [by apply elem_of_nil in Hin|].
  destruct (decide (name ∈ l)) as [Hl|Hl].
  - destruct (IH Hl) as (j & Hj & Hlast). exists (S j). split; [done|].
    intros [|j'] Hlt; [lia|]. cbn. apply Hlast. lia.
  - apply elem_of_cons in Hin as [->|Hin]; [|done].
    exists 0%nat. split; [done|].
    intros [|j'] Hlt; [lia|]. cbn. intros Hj'. apply Hl.
    apply list_elem_of_lookup. by exists j'.
Qed.

Lemma make_mapFields_custom (a0 : option bytes) (fields : bytes) (rest : Args)
    (name : string) (k : nat) :
  make_mapFields (a0 :: Some fields :: rest) !! name = Some k ↔
  field_names fields !! k = Some name ∧
  ∀ j, (k < j)%nat → field_names fields !! j ≠ Some name.
Proof.
  unfold make_mapFields, field_names. split.
  - intros Hm.
    destruct (decide (name ∈ strings_Trim_space <$> strings_Split (Str fields) ","))
      as [Hin|Hin].
    + destruct (last_occurrence _ _ Hin) as (j & Hj & Hlast).
      rewrite (map_fields_from_last 0 j _ _ _ Hj Hlast) in Hm.
      inversion Hm; subst k. done.
    + rewrite map_fields_from_absent in Hm by done. done.
  - intros [Hk Hlast]. by rewrite (map_fields_from_last 0 k _ _ _ Hk Hlast).
Qed.

(** What a returned record holds: every attribute of a mapped recognized
    field is cut out of the column the mapping gives for it. *)
Lemma QueryAsArray_columns `{libs : GoLibs} (ff : Fofa) (page : N)
    (args : Args) (data results : bytes) (records : Results)
    (e : option error) :
  reaches_split ff page args data results →
  QueryAsArray ff page args = Return (records, e) →
  ∃ rs, split_rows (make_mapFields args) results = Return rs ∧
    length records = length rs ∧
    ∀ i v r name a,
      rs !! i = Some v → records !! i = Some r →
      name ∈ recognized → make_mapFields args !! name = Some a →
      ∃ first mid last,
        Split v [comma] !! a = Some (first :: mid ++ [last]) ∧
        get_attribute name r = Str mid.
Proof.
  intros Hreach.
  rewrite (QueryAsArray_reaches_split ff page args data results Hreach).
  unfold split_and_parse. intros Hq.
  destruct (split_rows (make_mapFields args) results) as [rs|]; [|done].
  cbn in Hq.
  destruct (forR (parse_row (make_mapFields args)) rs) as [recs|] eqn:Hfor;
    [|done].
  cbn in Hq. inversion Hq; subst records e.
  destruct (forR_Return _ _ _ Hfor) as [Hlen Hall].
  exists rs. split; [done|]. split; [done|].
  intros i v r name a Hv Hr Hname Hm.
  destruct (Hall i v Hv) as (r' & Hr' & Hparse).
  rewrite Hr in Hr'. inversion Hr'; subst r'.
  pose proof (parse_row_attribute _ _ _ name Hparse Hname) as Hattr.
  by rewrite Hm in Hattr.
Qed.

(** C8. With a custom field list the index of a name in the mapping is
    its position in the list (split on the comma, trimmed; the last
    position when a name is repeated), and the attributes of every
    returned record are cut out of the columns at those indices. Without
    a field list the mapping is domain=0, host=1, ip=2, port=3, title=4,
    country=5, city=6 and nothing else. *)
Theorem make_mapFields_positions :
  (∀ (a0 : option bytes) (fields : bytes) (rest : Args) (name : string)
     (k : nat),
     make_mapFields (a0 :: Some fields :: rest) !! name = Some k ↔
     field_names fields !! k = Some name ∧
     ∀ j, (k < j)%nat → field_names fields !! j ≠ Some name) ∧
  (∀ (libs : GoLibs) (ff : Fofa) (page : N) (args : Args)
     (data results : bytes) (records : Results) (e : option error),
     reaches_split ff page args data results →
     QueryAsArray ff page args = Return (records, e) →
     ∃ rs, split_rows (make_mapFields args) results = Return rs ∧
       length records = length rs ∧
       ∀ i v r name a,
         rs !! i = Some v → records !! i = Some r →
         name ∈ recognized → make_mapFields args !! name = Some a →
         ∃ first mid last,
           Split v [comma] !! a = Some (first :: mid ++ [last]) ∧
           get_attribute name r = Str mid) ∧
  (∀ args : Args,
     (∀ fields, args !! 1%nat ≠ Some (Some fields)) →
     make_mapFields args
     = list_to_map [("domain", 0%nat); ("host", 1%nat); ("ip", 2%nat);
                    ("port", 3%nat); ("title", 4%nat); ("country", 5%nat);
                    ("city", 6%nat)]).
Proof.
  split; [|split].
  - apply make_mapFields_custom.
  - intros libs ff page args data results records e.
    apply QueryAsArray_columns.
  - intros args Hargs. by rewrite make_mapFields_default.
Qed.

(** The field list [ip,domain]: [ip] is column 0 and [domain] column 1. *)
Lemma make_mapFields_positions_witness :
  make_mapFields [Some example_query; Some (B "ip,domain")] !! "ip"
  = Some 0%nat ∧
  make_mapFields [Some example_query; Some (B "ip,domain")] !! "domain"
  = Some 1%nat ∧
  make_mapFields [Some example_query] !! "city" = Some 6%nat.
Proof.
  destruct make_mapFields_positions as (Hcustom & _ & Hdefault).
  split; [|split].
  - apply (Hcustom (Some example_query) (B "ip,domain") [] "ip" 0%nat).
    split; [reflexivity|].
    intros [|[|j]] Hlt; [lia|discriminate|discriminate].
  - apply (Hcustom (Some example_query) (B "ip,domain") [] "domain" 1%nat).
    split; [reflexivity|].
    intros [|[|j]] Hlt; [lia|lia|discriminate].
  - rewrite (Hdefault [Some example_query]); [reflexivity|].
    intros fields. discriminate.
Defined.

(** The round trip of the specification: fields [ip,domain], one row
    whose first column is the address and whose second is the domain. *)
Example QueryAsArray_ip_domain :
  QueryAsArray
    (libs := view_libs ip_domain_reply)
    (client_for ip_domain_reply) 1 [Some example_query; Some (B "ip,domain")]
  = Return ([{| Domain := "example.com"; Host := ""; IP := "1.2.3.4";
                Port := ""; Title := ""; Country := ""; City := "" |}], None).
Proof. reflexivity. Qed.

(** * Further properties of the code *)

(** ** The row split (lines 186-190) and the column split (line 193) *)

Lemma split_from_nonempty (sep : bytes) (k : nat) (cur s : bytes) :
  split_from sep k cur s ≠ [].
Proof.
  revert k cur. induction s as [|c s IH]; intros k cur; [done|].
  cbn. destruct k as [|k]; [|apply IH].
  destruct (has_prefix sep (c :: s)); [done|apply IH].
Qed.

Lemma Join_cons (x : bytes) (l : list bytes) (sep : bytes) :
  l ≠ [] → Join (x :: l) sep = x ++ sep ++ Join l sep.
Proof. by destruct l. Qed.

Lemma has_prefix_app (sep s : bytes) :
  has_prefix sep s = true → s = sep ++ drop (length sep) s.
Proof.
  revert s. induction sep as [|x sep IH]; intros s H; [done|].
  destruct s as [|y s]; [done|]. cbn in H.
  apply andb_true_iff in H as [Hxy H]. apply bool_decide_eq_true in Hxy as ->.
  cbn. f_equal. by apply IH.
Qed.

Lemma Index_Some (s sep : bytes) (m : nat) :
  Index s sep = Some m → s = take m s ++ sep ++ drop (m + length sep) s.
Proof.
  revert m. induction s as [|c s IH]; intros m; cbn.
  - destruct (has_prefix sep []) eqn:Hp; [|done].
    intros [= <-]. by apply has_prefix_app in Hp.
  - destruct (has_prefix sep (c :: s)) eqn:Hp.
    + intros [= <-]. by apply has_prefix_app in Hp.
    + destruct (Index s sep) as [m'|]; [|done]. cbn. intros [= <-].
      cbn. f_equal. by apply IH.
Qed.

Lemma Join_Split_bounded (sep : bytes) (n : nat) (s cur : bytes) :
  sep ≠ [] → (length s <= n)%nat →
  Join (split_from sep 0 cur s) sep = rev cur ++ s.
Proof.
  intros Hsep. revert s cur. induction n as [|n IH]; intros s cur Hn.
  - destruct s; [|cbn in Hn; lia]. cbn. by rewrite app_nil_r.
  - rewrite split_from_Index by done.
    destruct (Index s sep) as [m|] eqn:Hm; [|done].
    pose proof (Index_Some s sep m Hm) as Hs.
    rewrite Join_cons by apply split_from_nonempty.
    unfold Split. rewrite IH.
    + cbn [rev app]. rewrite <- app_assoc. by rewrite <- Hs.
    + rewrite length_drop. destruct sep; [done|]. cbn [length]. lia.
Qed.

(** Joining the pieces of a split with the separator gives the bytes
    back. *)
Lemma Join_Split (s sep : bytes) : sep ≠ [] → Join (Split s sep) sep = s.
Proof.
  intros Hsep. unfold Split.
  by rewrite (Join_Split_bounded sep (length s) s []).
Qed.

Lemma split_comma_length (v cur : bytes) :
  length (split_from [comma] 0 cur v) = S (commas v).
Proof.
  unfold commas. revert cur. induction v as [|c v IH]; intros cur; [done|].
  cbn [split_from has_prefix]. rewrite andb_true_r.
  rewrite filter_cons. case_bool_decide as Hc.
  - subst c. rewrite decide_True by done. cbn. by rewrite IH.
  - rewrite decide_False by (intros ->; by apply Hc). apply IH.
Qed.

Lemma split_rows_nonempty (mapFields : gmap string nat) (results : bytes)
    (rs : list bytes) :
  split_rows mapFields results = Return rs → rs ≠ [].
Proof.
  unfold split_rows, multi_field_rows, single_field_rows.
  destruct (bool_decide (1 < size mapFields)%nat).
  - destruct (slice results 2 (len results - 2)); [|done]. cbn.
    intros [= <-]. apply split_from_nonempty.
  - destruct (slice results 1 (len results - 1)); [|done]. cbn.
    intros [= <-]. apply split_from_nonempty.
Qed.

(** X1. The row split of lines 186-190 panics exactly when [results] is
    shorter than the two slice bounds need (four bytes when more than one
    field is mapped, two bytes otherwise), the panic is the slice-bounds
    one, and a split that returns gives at least one row. *)
Theorem split_rows_bounds (mapFields : gmap string nat) (results : bytes) :
  (split_rows mapFields results = Panic SliceBoundsOutOfRange ↔
   len results < least_results mapFields) ∧
  (∀ p, split_rows mapFields results = Panic p → p = SliceBoundsOutOfRange) ∧
  (∀ rs, split_rows mapFields results = Return rs → rs ≠ []).
Proof.
  unfold split_rows, least_results, multi_field_rows, single_field_rows,
    slice, len.
  destruct (bool_decide (1 < size mapFields)%nat).
  - destruct (decide (Z.of_nat (length results) < 4)) as [Hlt|Hge].
    + rewrite bool_decide_eq_false_2 by lia. cbn.
      split; [done|]. split; [by intros p [= <-]|done].
    + rewrite bool_decide_eq_true_2 by lia. cbn.
      split; [split; [done|lia]|]. split; [done|].
      intros rs [= <-]. apply split_from_nonempty.
  - destruct (decide (Z.of_nat (length results) < 2)) as [Hlt|Hge].
    + rewrite bool_decide_eq_false_2 by lia. cbn.
      split; [done|]. split; [by intros p [= <-]|done].
    + rewrite bool_decide_eq_true_2 by lia. cbn.
      split; [split; [done|lia]|]. split; [done|].
      intros rs [= <-]. apply split_from_nonempty.
Qed.

(** An empty array under the default mapping is two bytes short. *)
Lemma split_rows_bounds_witness :
  split_rows default_mapFields (B "[]") = Panic SliceBoundsOutOfRange.
Proof.
  apply (proj1 (split_rows_bounds default_mapFields (B "[]"))).
  vm_compute. reflexivity.
Defined.

(** X2. The row split loses no byte: when it returns, [results] is its
    first two bytes, the rows joined by [],[] and its last two bytes on
    the multi-field path, and its first byte, the rows joined by a comma
    and its last byte on the single-field path. *)
Theorem split_rows_lossless (mapFields : gmap string nat) (results : bytes)
    (rs : list bytes) :
  split_rows mapFields results = Return rs →
  if bool_decide (1 < size mapFields)%nat
  then results = take 2 results ++ Join rs (B "],[")
                 ++ drop (length results - 2) results
  else results = take 1 results ++ Join rs [comma]
                 ++ drop (length results - 1) results.
Proof.
  unfold split_rows, multi_field_rows, single_field_rows, slice, len.
  destruct (bool_decide (1 < size mapFields)%nat).
  - case_bool_decide as Hb; [|done]. cbn. intros [= <-].
    rewrite Join_Split by done.
    replace (Z.to_nat (Z.of_nat (length results) - 2 - 2))
      with (length results - 4)%nat by lia.
    replace (Z.to_nat 2) with 2%nat by lia.
    rewrite <- (take_drop 2 results) at 1. f_equal.
    rewrite <- (take_drop (length results - 4) (drop 2 results)) at 1.
    f_equal. rewrite drop_drop. f_equal. lia.
  - case_bool_decide as Hb; [|done]. cbn. intros [= <-].
    rewrite Join_Split by done.
    replace (Z.to_nat (Z.of_nat (length results) - 1 - 1))
      with (length results - 2)%nat by lia.
    replace (Z.to_nat 1) with 1%nat by lia.
    rewrite <- (take_drop 1 results) at 1. f_equal.
    rewrite <- (take_drop (length results - 2) (drop 1 results)) at 1.
    f_equal. rewrite drop_drop. f_equal. lia.
Qed.

(** The two rows of a two-field reply, put back together. *)
Lemma split_rows_lossless_witness :
  render_results two_rows
  = B "[[" ++ Join (render_row <$> two_rows) (B "],[") ++ B "]]".
Proof.
  exact (split_rows_lossless
           (make_mapFields [Some example_query; Some (B "ip,domain")])
           (render_results two_rows) (render_row <$> two_rows) eq_refl).
Defined.

(** ** What [QueryAsArray] can return (lines 129-218) *)

Lemma split_and_parse_Return (mapFields : gmap string nat) (results : bytes)
    (records : Results) (e : option error) :
  split_and_parse mapFields results = Return (records, e) →
  e = None ∧
  ∃ rs, split_rows mapFields results = Return rs ∧
    forR (parse_row mapFields) rs = Return records.
Proof.
  unfold split_and_parse. intros H.
  destruct (split_rows mapFields results) as [rs|]; [|done]. cbn in H.
  destruct (forR (parse_row mapFields) rs) as [recs|] eqn:Hfor; [|done].
  cbn in H. inversion H; subst. split; [done|]. by exists rs.
Qed.

(** X3. Whatever the libraries answer: a result of [QueryAsArray] that
    carries an error carries no record, and a result without error comes
    from a reply that passed every check and holds one record per row of
    the split, so at least one. *)
Theorem QueryAsArray_outcome `{libs : GoLibs} (ff : Fofa) (page : N)
    (args : Args) (records : Results) (e : option error) :
  QueryAsArray ff page args = Return (records, e) →
  match e with
  | Some _ => records = []
  | None =>
      records ≠ [] ∧
      ∃ data results rs,
        reaches_split ff page args data results ∧
        split_rows (make_mapFields args) results = Return rs ∧
        length records = length rs
  end.
Proof.
  unfold QueryAsArray, QueryAsJSON, parse_reply.
  destruct (Client_Get ff (request_url ff page args)) as [msg|data] eqn:Hget.
  { intros [= <- <-]. done. }
  destruct (jsonparser_GetString data "errmsg") as [m [e1|]] eqn:Hmsg;
    [|intros [= <- <-]; done].
  cbn. rewrite Hmsg.
  destruct (jsonparser_Get data "results") as [[results t] e2] eqn:Hres.
  case_bool_decide as Ht.
  { destruct e2; [intros [= <- <-]; done|done]. }
  destruct e2 as [e2|]; [intros [= <- <-]; done|].
  destruct (jsonparser_GetInt data "size") as [n [e3|]] eqn:Hsize;
    [intros [= <- <-]; done|].
  destruct (Z.ltb_spec n 1) as [Hn|Hn]; [intros [= <- <-]; done|].
  intros H. apply split_and_parse_Return in H as (-> & rs & Hrs & Hfor).
  destruct (forR_Return _ _ _ Hfor) as [Hlen _].
  assert (rs ≠ []) as Hne.
  { exact (split_rows_nonempty _ _ _ Hrs). }
  split; [intros ->; by destruct rs|].
  exists data, results, rs. split; [|done].
  split; [done|]. split; [by rewrite Hmsg|]. subst t.
  split; [done|]. exists n. split; [done|lia].
Qed.

(** The example reply: no error, one record for its one row. *)
Lemma QueryAsArray_outcome_witness :
  ∃ records : Results,
    QueryAsArray (libs := view_libs example_reply) (client_for example_reply)
      1 [Some example_query] = Return (records, None) ∧
    records ≠ [].
Proof.
  eexists. split; [reflexivity|].
  exact (proj1 (QueryAsArray_outcome (libs := view_libs example_reply)
                  (client_for example_reply) 1 [Some example_query] _ None
                  eq_refl)).
Defined.

Lemma parse_row_Return_sliceable (mapFields : gmap string nat) (v : bytes)
    (r : result) :
  parse_row mapFields v = Return r → row_sliceable mapFields v.
Proof.
  intros Hr. unfold row_sliceable. apply Forall_forall. intros name Hname.
  pose proof (parse_row_attribute _ _ _ name Hr Hname) as Hattr.
  unfold column_sliceable. destruct (mapFields !! name) as [a|]; [|done].
  destruct Hattr as (first & mid & last & -> & _).
  cbn. rewrite length_app. cbn. lia.
Qed.

(** X4. For a reply that reaches the splitting step, [QueryAsArray]
    returns records exactly when [results] is long enough for the row
    split and, in every row, each column a recognized field of the mapping
    points at is present with at least two bytes; in every other case it
    panics. *)
Theorem QueryAsArray_returns_iff `{libs : GoLibs} (ff : Fofa) (page : N)
    (args : Args) (data results : bytes) :
  reaches_split ff page args data results →
  ((∃ records, QueryAsArray ff page args = Return (records, None)) ↔
   ∃ rs, split_rows (make_mapFields args) results = Return rs ∧
     Forall (row_sliceable (make_mapFields args)) rs) ∧
  ((∃ p, QueryAsArray ff page args = Panic p) ↔
   ¬ ∃ rs, split_rows (make_mapFields args) results = Return rs ∧
       Forall (row_sliceable (make_mapFields args)) rs).
Proof.
  intros Hreach.
  rewrite (QueryAsArray_reaches_split ff page args data results Hreach).
  assert ((∃ records,
             split_and_parse (make_mapFields args) results
             = Return (records, None)) ↔
          ∃ rs, split_rows (make_mapFields args) results = Return rs ∧
            Forall (row_sliceable (make_mapFields args)) rs) as Hiff.
  { split.
    - intros [records H].
      apply split_and_parse_Return in H as (_ & rs & Hrs & Hfor).
      exists rs. split; [done|]. apply Forall_forall. intros v Hv.
      destruct (forR_Return _ _ _ Hfor) as [_ Hall].
      apply list_elem_of_lookup in Hv as [i Hi].
      destruct (Hall i v Hi) as (r & _ & Hr).
      by apply (parse_row_Return_sliceable _ _ r).
    - intros (rs & Hrs & Hok). unfold split_and_parse. rewrite Hrs. cbn.
      destruct (forR_total (parse_row (make_mapFields args)) rs)
        as [records Hfor].
      { intros v Hv. rewrite Forall_forall in Hok.
        by apply parse_row_sliceable, Hok. }
      exists records. by rewrite Hfor. }
  split; [exact Hiff|]. rewrite <- Hiff. split.
  - intros [p Hp] [records Hr]. by rewrite Hp in Hr.
  - intros Hno.
    destruct (split_and_parse (make_mapFields args) results)
      as [[records e]|p] eqn:Hq; [|by exists p].
    destruct (split_and_parse_Return _ _ _ _ Hq) as [-> _].
    destruct Hno. by exists records.
Qed.

(** The example reply returns; its one row has the seven columns. *)
Lemma QueryAsArray_returns_iff_witness :
  ∃ records,
    QueryAsArray (libs := view_libs example_reply) (client_for example_reply)
      1 [Some example_query] = Return (records, None).
Proof.
  destruct (QueryAsArray_returns_iff (libs := view_libs example_reply)
              (client_for example_reply) 1 [Some example_query]
              (body_of example_reply) (render_results [example_row]))
    as [Hiff _].
  - repeat split; [vm_compute; discriminate|].
    exists 1. split; [reflexivity|lia].
  - apply Hiff. exists [render_row example_row]. split; [reflexivity|].
    apply (bool_decide_unpack _). vm_compute. exact I.
Defined.

(** X5. The column split counts commas, whatever stands around them: a
    row has one column more than it has commas. With the default fields
    every row therefore needs six commas: a reply that reaches the
    splitting step with a row of fewer makes [QueryAsArray] panic. *)
Theorem default_fields_need_six_commas `{libs : GoLibs} (ff : Fofa)
    (page : N) (args : Args) (data results : bytes) (rs : list bytes)
    (v : bytes) :
  (∀ fields, args !! 1%nat ≠ Some (Some fields)) →
  reaches_split ff page args data results →
  split_rows (make_mapFields args) results = Return rs →
  v ∈ rs →
  length (Split v [comma]) = S (commas v) ∧
  ((commas v < 6)%nat → ∃ p, QueryAsArray ff page args = Panic p).
Proof.
  intros Hargs Hreach Hrs Hv. split; [apply split_comma_length|].
  intros Hlt.
  rewrite (QueryAsArray_reaches_split ff page args data results Hreach).
  apply (split_and_parse_panic _ results rs v "city" IndexOutOfRange);
    [done|done|solve_recognized|].
  apply (attribute_no_column _ _ _ 6%nat).
  - by rewrite (make_mapFields_default args Hargs).
  - unfold Split. rewrite split_comma_length. lia.
Qed.

(** A row of two columns has one comma. *)
Lemma default_fields_need_six_commas_witness :
  length (Split (render_row [B "a"; B "b"]) [comma]) = 2%nat ∧
  ∃ p,
    QueryAsArray (libs := view_libs two_columns_reply)
      (client_for two_columns_reply) 1 [Some example_query] = Panic p.
Proof.
  destruct (default_fields_need_six_commas
              (libs := view_libs two_columns_reply)
              (client_for two_columns_reply) 1 [Some example_query]
              (body_of two_columns_reply)
              (render_results [[B "a"; B "b"]]) [render_row [B "a"; B "b"]]
              (render_row [B "a"; B "b"]))
    as [Hlen Hpanic].
  - intros fields. discriminate.
  - repeat split; [vm_compute; discriminate|].
    exists 1. split; [reflexivity|lia].
  - reflexivity.
  - left.
  - split; [exact Hlen|]. apply Hpanic. vm_compute. lia.
Defined.

(** ** The error paths *)



(** X7. When the lookup of [results] fails (the key is missing, or the
    value is cut off), [QueryAsArray] returns the error of the lookup
    itself, not the package's format error, and no record; this holds
    for every type the lookup reports, array included. *)
Theorem QueryAsArray_results_lookup_error `{libs : GoLibs} (ff : Fofa)
    (page : N) (args : Args) (data value : bytes) (t : ValueType)
    (e : string) :
  Client_Get ff (request_url ff page args) = inr data →
  (jsonparser_GetString data "errmsg").2 ≠ None →
  jsonparser_Get data "results" = (value, t, Some e) →
  QueryAsArray ff page args = Return ([], Some (lib_error e)) ∧
  lib_error e ≠ errFofaReplyWrongFormat.
Proof.
  intros Hget Hmsg Hres. split; [|done].
  by apply (QueryAsArray_results_error ff page args data value t e).
Qed.

(** A reply cut off inside the array: type array, with an error. *)
Lemma QueryAsArray_results_lookup_error_witness :
  QueryAsArray (libs := view_libs cut_off_reply) (client_for cut_off_reply)
    1 [Some example_query]
  = Return ([], Some (lib_error MalformedArrayError)) ∧
  lib_error MalformedArrayError ≠ errFofaReplyWrongFormat.
Proof.
  apply (QueryAsArray_results_lookup_error (libs := view_libs cut_off_reply)
           (client_for cut_off_reply) 1 [Some example_query]
           (body_of cut_off_reply) [] Array MalformedArrayError);
    [reflexivity | vm_compute; discriminate | reflexivity].
Defined.

(** X8. When [results] is an array but the lookup of [size] fails (the key
    is missing or is no integer), [QueryAsArray] returns the package's
    format error and no record, whatever the array holds: the rows are
    not looked at. *)
Theorem QueryAsArray_size_lookup_error `{libs : GoLibs} (ff : Fofa)
    (page : N) (args : Args) (data results : bytes) (n : Z) (e : string) :
  Client_Get ff (request_url ff page args) = inr data →
  (jsonparser_GetString data "errmsg").2 ≠ None →
  jsonparser_Get data "results" = (results, Array, None) →
  jsonparser_GetInt data "size" = (n, Some e) →
  QueryAsArray ff page args = Return ([], Some errFofaReplyWrongFormat).
Proof.
  intros Hget Hmsg Hres Hsize.
  rewrite (QueryAsArray_no_errmsg ff page args data Hget Hmsg).
  unfold parse_reply.
  destruct (jsonparser_GetString data "errmsg") as [m [e'|]];
    [|by cbn in Hmsg].
  rewrite Hres, Hsize.
  by rewrite bool_decide_eq_false_2 by (intros H; by apply H).
Qed.

Lemma QueryAsArray_size_lookup_error_witness :
  QueryAsArray (libs := view_libs no_size_reply) (client_for no_size_reply)
    1 [Some example_query]
  = Return ([], Some errFofaReplyWrongFormat).
Proof.
  apply (QueryAsArray_size_lookup_error (libs := view_libs no_size_reply)
           (client_for no_size_reply) 1 [Some example_query]
           (body_of no_size_reply) (render_results [example_row]) 0
           KeyPathNotFoundError);
    [reflexivity | vm_compute; discriminate | reflexivity | reflexivity].
Defined.

(** ** Mappings without a recognized name *)

Lemma parse_row_unmapped (mapFields : gmap string nat) (v : bytes) :
  (∀ name, name ∈ recognized → mapFields !! name = None) →
  parse_row mapFields v = Return zero_result.
Proof.
  intros Hnone. apply parse_row_Return. intros name Hname.
  rewrite (attribute_unmapped _ _ _ (Hnone name Hname)). f_equal.
  by apply (recognized_cases name (λ n, "" = get_attribute n zero_result)).
Qed.

(** X9. When the mapping holds none of the seven recognized names (a
    custom field list of other names), a reply that reaches the splitting
    step never panics in the rows: [QueryAsArray] returns one record per
    row of the split, each with all seven attributes empty. *)
Theorem QueryAsArray_unrecognized_fields `{libs : GoLibs} (ff : Fofa)
    (page : N) (args : Args) (data results : bytes) (rs : list bytes) :
  reaches_split ff page args data results →
  split_rows (make_mapFields args) results = Return rs →
  (∀ name, name ∈ recognized → make_mapFields args !! name = None) →
  QueryAsArray ff page args
  = Return (replicate (length rs) zero_result, None).
Proof.
  intros Hreach Hrs Hnone.
  rewrite (QueryAsArray_reaches_split ff page args data results Hreach).
  unfold split_and_parse. rewrite Hrs. cbn.
  assert (forR (parse_row (make_mapFields args)) rs
          = Return (replicate (length rs) zero_result)) as ->; [|done].
  clear Hrs. induction rs as [|v rs IH]; [done|].
  cbn. rewrite parse_row_unmapped by done. cbn. by rewrite IH.
Qed.

(** The fields [banner,header] on a reply of two rows of two columns. *)
Lemma QueryAsArray_unrecognized_fields_witness :
  QueryAsArray (libs := view_libs two_rows_reply) (client_for two_rows_reply)
    1 [Some example_query; Some (B "banner,header")]
  = Return ([zero_result; zero_result], None).
Proof.
  change [zero_result; zero_result]
    with (replicate (length (render_row <$> two_rows)) zero_result).
  apply (QueryAsArray_unrecognized_fields (libs := view_libs two_rows_reply)
           (client_for two_rows_reply) 1
           [Some example_query; Some (B "banner,header")]
           (body_of two_rows_reply) (render_results two_rows)
           (render_row <$> two_rows)).
  - repeat split; [vm_compute; discriminate|].
    exists 2. split; [reflexivity|lia].
  - reflexivity.
  - intros name Hname.
    by apply (recognized_cases name
      (λ n, make_mapFields [Some example_query; Some (B "banner,header")]
            !! n = None)).
Defined.

(** ** Rows of quoted columns under any mapping *)





(** ** A query for one field *)




(** ** The mapping and the request (lines 91-97 and 143-157) *)

Lemma strings_Split_nonempty (s sep : string) : strings_Split s sep ≠ [].
Proof.
  unfold strings_Split, Split.
  pose proof (split_from_nonempty (B sep) 0 [] (B s)) as H.
  by destruct (split_from (B sep) 0 [] (B s)).
Qed.

Lemma map_fields_from_size (i : nat) (fields : list string)
    (mapFields : gmap string nat) :
  (size (map_fields_from i fields mapFields)
   <= size mapFields + length fields)%nat.
Proof.
  revert i mapFields. induction fields as [|field rest IH];
    intros i mapFields; cbn; [lia|].
  etrans; [apply IH|]. rewrite map_size_insert.
  destruct (mapFields !! strings_Trim_space field); cbn; lia.
Qed.

Lemma map_size_two (m : gmap string nat) :
  (1 < size m)%nat ↔ ∃ a b x y, a ≠ b ∧ m !! a = Some x ∧ m !! b = Some y.
Proof.
  split.
  - intros Hsize.
    destruct (map_size_ne_0_lookup_1 m) as (a & x & Ha); [lia|].
    destruct (map_size_ne_0_lookup_1 (delete a m)) as (b & y & Hb).
    { rewrite map_size_delete_Some by done. lia. }
    apply lookup_delete_Some in Hb as [Hne Hb]. by exists a, b, x, y.
  - intros (a & b & x & y & Hne & Ha & Hb).
    assert (size (delete a m) ≠ 0%nat) as Hd.
    { apply (map_size_ne_0_lookup_2 _ b). exists y.
      by rewrite lookup_delete_ne. }
    rewrite map_size_delete_Some in Hd by done. lia.
Qed.

(** X12. A custom field list always gives a mapping of at least one name
    and of at most as many names as the list has entries, every index of
    the mapping is a position of the list, and the multi-field path is
    taken exactly when the list holds two different names once trimmed: a
    list that repeats one name is parsed on the single-field path. *)
Theorem custom_mapping_shape (a0 : option bytes) (fields : bytes)
    (rest : Args) :
  (1 <= size (make_mapFields (a0 :: Some fields :: rest))
   <= length (field_names fields))%nat ∧
  (∀ name k,
     make_mapFields (a0 :: Some fields :: rest) !! name = Some k →
     field_names fields !! k = Some name) ∧
  ((1 < size (make_mapFields (a0 :: Some fields :: rest)))%nat ↔
   ∃ i j a b,
     field_names fields !! i = Some a ∧ field_names fields !! j = Some b ∧
     a ≠ b).
Proof.
  assert (∀ name, name ∈ field_names fields →
            ∃ k, make_mapFields (a0 :: Some fields :: rest) !! name = Some k)
    as Hin.
  { intros name Hname.
    destruct (last_occurrence _ _ Hname) as (k & Hk & Hlast).
    exists k. by apply make_mapFields_custom. }
  split; [split|split].
  - destruct (field_names fields) as [|name names] eqn:Hnames.
    { unfold field_names in Hnames. apply fmap_nil_inv in Hnames.
      by destruct (strings_Split_nonempty (Str fields) ","). }
    destruct (Hin name) as [k Hk]; [by left|].
    assert (size (make_mapFields (a0 :: Some fields :: rest)) ≠ 0%nat);
      [|lia].
    apply (map_size_ne_0_lookup_2 _ name). by exists k.
  - unfold make_mapFields, field_names. rewrite length_fmap.
    etrans; [apply map_fields_from_size|]. by rewrite map_size_empty.
  - intros name k Hk. by apply make_mapFields_custom in Hk as [Hk _].
  - rewrite map_size_two. split.
    + intros (a & b & x & y & Hne & Ha & Hb).
      exists x, y, a, b.
      apply make_mapFields_custom in Ha as [Ha _].
      apply make_mapFields_custom in Hb as [Hb _]. done.
    + intros (i & j & a & b & Hi & Hj & Hne).
      destruct (Hin a) as [x Hx]; [apply list_elem_of_lookup; by exists i|].
      destruct (Hin b) as [y Hy]; [apply list_elem_of_lookup; by exists j|].
      by exists a, b, x, y.
Qed.

(** The list [ip,ip] has two entries and one name: the mapping has one
    name, with the second position. *)
Lemma custom_mapping_shape_witness :
  (1 <= size (make_mapFields [Some example_query; Some (B "ip,ip")])
   <= length (field_names (B "ip,ip")))%nat ∧
  field_names (B "ip,ip") !! 1%nat = Some "ip".
Proof.
  destruct (custom_mapping_shape (Some example_query) (B "ip,ip") [])
    as (Hsize & Hpos & _).
  split; [exact Hsize|]. apply Hpos. reflexivity.
Defined.

(** X13. With at most two arguments the mapping is the one of the field
    list the request sends: the positions of the names of that list, for
    the default list as for a custom one. With three or more arguments
    the request carries an empty query and the default list, while the
    mapping is still built from the second argument. *)
Theorem mapping_and_request (args : Args) :
  ((length args <= 2)%nat →
   make_mapFields args
   = map_fields_from 0 (strings_Split (Str (query_and_fields args).2) ",") ∅) ∧
  ((2 < length args)%nat →
   query_and_fields args = ([], B "domain,host,ip,port,title,country,city") ∧
   make_mapFields args = make_mapFields (take 2 args)).
Proof.
  split; intros Hlen.
  - destruct args as [|a0 [|[f|] [|a2 rest]]]; try (cbn in Hlen; lia);
      reflexivity.
  - destruct args as [|a0 [|a1 [|a2 rest]]]; try (cbn in Hlen; lia).
    split; [by destruct a1|by destruct a1].
Qed.

(** One argument, and three arguments with a custom list in the second. *)
Lemma mapping_and_request_witness :
  make_mapFields [Some example_query]
  = map_fields_from 0
      (strings_Split "domain,host,ip,port,title,country,city" ",") ∅ ∧
  query_and_fields [Some example_query; Some (B "ip,domain"); None]
  = ([], B "domain,host,ip,port,title,country,city") ∧
  make_mapFields [Some example_query; Some (B "ip,domain"); None]
  = make_mapFields [Some example_query; Some (B "ip,domain")].
Proof.
  split.
  - apply (proj1 (mapping_and_request [Some example_query])). cbn. lia.
  - apply (proj2 (mapping_and_request
                    [Some example_query; Some (B "ip,domain"); None])).
    cbn. lia.
Defined.

(** ** The raw reply (lines 114-122) *)

(** X14. Once the transport has answered, [QueryAsJSON] returns the whole
    body whatever it holds, and its error is nil exactly when the lookup
    of a string [errmsg] fails: the body is not checked in any other
    way. *)
Theorem QueryAsJSON_body `{libs : GoLibs} (ff : Fofa) (page : N)
    (args : Args) (buf : bytes) :
  Client_Get ff (request_url ff page args) = inr buf →
  (QueryAsJSON ff page args).1 = buf ∧
  ((QueryAsJSON ff page args).2 = None ↔
   (jsonparser_GetString buf "errmsg").2 ≠ None).
Proof.
  intros Hget. unfold QueryAsJSON. rewrite Hget.
  destruct (jsonparser_GetString buf "errmsg") as [m [e|]]; cbn.
  - split; [done|]. split; [done|done].
  - split; [done|]. split; [done|]. intros H. by destruct H.
Qed.

(** A body that is no reply of the service at all comes back as it is. *)
Lemma QueryAsJSON_body_witness :
  (QueryAsJSON (libs := view_libs no_results_reply)
     (client_for no_results_reply) 1 [Some example_query]).1
  = body_of no_results_reply ∧
  (QueryAsJSON (libs := view_libs no_results_reply)
     (client_for no_results_reply) 1 [Some example_query]).2 = None.
Proof.
  destruct (QueryAsJSON_body (libs := view_libs no_results_reply)
              (client_for no_results_reply) 1 [Some example_query]
              (body_of no_results_reply) eq_refl) as [Hbody Herr].
  split; [exact Hbody|]. apply Herr. vm_compute. discriminate.
Defined.

(** ** The names of a custom mapping (line 146) *)

Lemma trim_left_suffix (s : bytes) : ∃ p, s = p ++ trim_left s.
Proof.
  induction s as [|c s [p Hp]]; [by exists []|].
  cbn. case_bool_decide.
  - exists (c :: p). cbn. by rewrite <- Hp.
  - by exists [].
Qed.

Lemma trim_left_head (s : bytes) : head (trim_left s) ≠ Some space.
Proof.
  induction s as [|c s IH]; [done|].
  cbn. case_bool_decide as Hc; [done|]. cbn. intros [= ->]. by apply Hc.
Qed.

Lemma trim_left_last (s : bytes) :
  last s ≠ Some space → last (trim_left s) ≠ Some space.
Proof.
  destruct (trim_left_suffix s) as [p Hp].
  destruct (trim_left s) as [|c t] eqn:Ht; [done|].
  intros Hs. rewrite Hp in Hs. by rewrite last_app_cons in Hs.
Qed.

Lemma head_rev (s : bytes) : head (rev s) = last s.
Proof. rewrite rev_alt. apply head_reverse. Qed.

Lemma last_rev (s : bytes) : last (rev s) = head s.
Proof. rewrite rev_alt. apply last_reverse. Qed.

Lemma Trim_space_ends (field : string) :
  head (B (strings_Trim_space field)) ≠ Some space ∧
  last (B (strings_Trim_space field)) ≠ Some space.
Proof.
  unfold strings_Trim_space, B, Str.
  rewrite list_byte_of_string_of_list_byte.
  split.
  - rewrite head_rev. apply trim_left_last.
    rewrite last_rev. apply trim_left_head.
  - rewrite last_rev. apply trim_left_head.
Qed.

(** X15. The names of a custom mapping are trimmed: no name the mapping
    holds begins or ends with a space, so a list written [ip , domain]
    maps the names [ip] and [domain]. *)
Theorem custom_mapping_names_trimmed (a0 : option bytes) (fields : bytes)
    (rest : Args) (name : string) (k : nat) :
  make_mapFields (a0 :: Some fields :: rest) !! name = Some k →
  head (B name) ≠ Some space ∧ last (B name) ≠ Some space.
Proof.
  intros Hk. apply make_mapFields_custom in Hk as [Hk _].
  unfold field_names in Hk. rewrite list_lookup_fmap in Hk.
  destruct (strings_Split (Str fields) "," !! k) as [field|]; [|done].
  cbn in Hk. inversion Hk; subst name. apply Trim_space_ends.
Qed.

(** The list [ip , domain ], with spaces around the comma and at the
    end. *)
Lemma custom_mapping_names_trimmed_witness :
  make_mapFields [Some example_query; Some (B "ip , domain ")] !! "domain"
  = Some 1%nat ∧
  head (B "domain") ≠ Some space ∧ last (B "domain") ≠ Some space.
Proof.
  split; [reflexivity|].
  apply (custom_mapping_names_trimmed (Some example_query)
           (B "ip , domain ") [] "domain" 1%nat).
  reflexivity.
Defined.
